(** * fail2ban-test: replay pacing and metrics collection

    A shallow embedding of [scripts/collect_fail2ban.py] and
    [scripts/replay.py], followed by the properties of the specification
    that were checked against it.

    Conventions of the embedding:
    - Python [str] is [string]; [str.upper], [str.lower], [in] and
      [str.strip] are written out on ASCII characters.
    - Python exceptions are the [Raise] case of [result].
    - Python floats are idealised as rationals ([Q]); the square root of
      [statistics.stdev] is taken in the reals.
    - Python dictionaries and sets keyed by text are [gmap string] and
      [gset string].
    - In [collect_fail2ban.py] a [datetime] is only compared, subtracted
      and parsed: it is a point of the time line, given by its count of
      microseconds. In [replay.py], which reads and replaces the year, it
      is the record of its fields. *)

From Stdlib Require Import ZArith QArith Qreals Reals Lia Lra Lqa String Ascii List.
From Stdlib Require Import Sorting.Sorted Sorting.Permutation.
From stdpp Require Import gmap strings list fin_maps sorting.

Local Open Scope string_scope.
Local Open Scope list_scope.
Local Open Scope Z_scope.
Local Set Warnings "-register-all".

(** ** Exceptions *)

Inductive exn : Type :=
  | ValueError
  | OverflowError
  | KeyError
  | TypeError
  | AttributeError
  | JSONDecodeError
  | StatisticsError
  | ZeroDivisionError
  | CalledProcessError.

Inductive result (A : Type) : Type :=
  | Ok (a : A)
  | Raise (e : exn).

Arguments Ok {A} a.
Arguments Raise {A} e.

Definition bind {A B : Type} (r : result A) (k : A -> result B) : result B :=
  match r with
  | Ok a => k a
  | Raise e => Raise e
  end.

Notation "'let*' x ':=' r 'in' k" := (bind r (fun x => k))
  (at level 10, x name, r at level 100, k at level 200).

Definition failed {A : Type} (r : result A) : Prop := exists e, r = Raise e.

(** ** Python text operations

    A [string] is a sequence of characters with code points below 256.
    Case mapping is written out for the ASCII letters; other characters are
    left as they are, which changes none of the tests the program makes
    (they look for words of ASCII letters). *)

Module PyStr.

Definition is_lower (c : ascii) : bool :=
  let n := N_of_ascii c in ((97 <=? n) && (n <=? 122))%N.

Definition is_upper (c : ascii) : bool :=
  let n := N_of_ascii c in ((65 <=? n) && (n <=? 90))%N.

Definition upper_char (c : ascii) : ascii :=
  if is_lower c then ascii_of_N (N_of_ascii c - 32) else c.

Definition lower_char (c : ascii) : ascii :=
  if is_upper c then ascii_of_N (N_of_ascii c + 32) else c.

(** [s.upper()] *)
Fixpoint upper (s : string) : string :=
  match s with
  | EmptyString => EmptyString
  | String c s' => String (upper_char c) (upper s')
  end.

(** [s.lower()] *)
Fixpoint lower (s : string) : string :=
  match s with
  | EmptyString => EmptyString
  | String c s' => String (lower_char c) (lower s')
  end.

(** [p in s] *)
Fixpoint contains (p s : string) : bool :=
  String.prefix p s ||
  match s with
  | EmptyString => false
  | String _ s' => contains p s'
  end.

(** [p] occurs in [s]: what [contains] decides. *)
Definition occurs_in (p s : string) : Prop := exists a b, s = a +:+ p +:+ b.

(** The characters [str.isspace] accepts: tab to carriage return, the four
    separators, the space, next-line and the no-break space. *)
Definition is_space (c : ascii) : bool :=
  let n := N_of_ascii c in
  ((n =? 32) || ((9 <=? n) && (n <=? 13)) || ((28 <=? n) && (n <=? 31))
   || (n =? 133) || (n =? 160))%N.

Fixpoint lstrip (s : string) : string :=
  match s with
  | EmptyString => EmptyString
  | String c s' => if is_space c then lstrip s' else s
  end.

Definition rstrip (s : string) : string := String.rev (lstrip (String.rev s)).

(** [s.strip()] *)
Definition strip (s : string) : string := rstrip (lstrip s).

(** [not s.strip()] *)
Definition blank (s : string) : bool := String.eqb (strip s) "".

(** [s[i:j]] for [0 <= i <= j]; like Python's, it stops at the end of [s]. *)
Definition slice (i j : nat) (s : string) : string :=
  String.substring i (j - i) s.

Definition digit_val (c : ascii) : option Z :=
  let n := N_of_ascii c in
  if ((48 <=? n) && (n <=? 57))%N then Some (Z.of_N (n - 48)) else None.

(** Decimal digits, single underscores allowed between two of them. *)
Fixpoint digits (acc : Z) (after_digit : bool) (s : string) : option Z :=
  match s with
  | EmptyString => if after_digit then Some acc else None
  | String c s' =>
      match digit_val c with
      | Some d => digits (acc * 10 + d) true s'
      | None =>
          if after_digit && Ascii.eqb c "_" then digits acc false s' else None
      end
  end.

(** The white space [int] skips around a number: tab to carriage return,
    the space, next-line and the no-break space. The four separators, which
    [str.strip] removes, are not among them. *)
Definition is_int_space (c : ascii) : bool :=
  let n := N_of_ascii c in
  ((n =? 32) || ((9 <=? n) && (n <=? 13)) || (n =? 133) || (n =? 160))%N.

Fixpoint int_lstrip (s : string) : string :=
  match s with
  | EmptyString => EmptyString
  | String c s' => if is_int_space c then int_lstrip s' else s
  end.

Definition int_strip (s : string) : string :=
  String.rev (int_lstrip (String.rev (int_lstrip s))).

(** [int(s)] on decimal text: white space around the number and a sign
    before it are accepted; anything else raises [ValueError]. *)
Definition unsigned (t : string) : result Z :=
  match digits 0 false t with
  | Some v => Ok v
  | None => Raise ValueError
  end.

Definition int (s : string) : result Z :=
  match int_strip s with
  | String c t =>
      if Ascii.eqb c "+" then unsigned t
      else if Ascii.eqb c "-" then let* v := unsigned t in Ok (- v)
      else unsigned (String c t)
  | EmptyString => unsigned EmptyString
  end.

(** [s.split(sep)] for a one-character separator. *)
Fixpoint split (sep : ascii) (s : string) : list string :=
  match s with
  | EmptyString => [EmptyString]
  | String c s' =>
      if Ascii.eqb c sep then EmptyString :: split sep s'
      else match split sep s' with
           | [] => [String c EmptyString]
           | w :: ws => String c w :: ws
           end
  end.

End PyStr.

(** [timedelta.total_seconds()] of a difference given in microseconds. *)
Definition total_seconds (micro : Z) : Q := Qred (micro # 1000000).

(** Python's two-argument [min] and [max]: the first argument wins a tie. *)
Definition py_min (a b : Q) : Q := if Qlt_le_dec b a then b else a.
Definition py_max (a b : Q) : Q := if Qlt_le_dec a b then b else a.

(** ** JSON values, as [json.loads] builds them *)

Inductive json : Type :=
  | JNull
  | JBool (b : bool)
  | JNum (q : Q)
  | JStr (s : string)
  | JArr (l : list json)
  | JObj (m : gmap string json).

(** Python truth value of a decoded JSON value. *)
Definition truthy (v : json) : bool :=
  match v with
  | JNull => false
  | JBool b => b
  | JNum q => negb (Qeq_bool q 0)
  | JStr s => negb (String.eqb s "")
  | JArr l => negb (Nat.eqb (length l) 0)
  | JObj m => negb (Nat.eqb (size m) 0)
  end.

(** The two library functions [load_actions] calls: [json.loads] ([None]
    when it raises [JSONDecodeError]) and [datetime.strptime value fmt]
    ([None] when it raises [ValueError]); a [datetime] is given by its
    count of microseconds on the time line. *)
Class Library : Type := {
  json_loads : string -> option json;
  strptime : string -> string -> option Z;
}.

(** ** collect_fail2ban.py *)

Module Collect.

Definition DATETIME_FORMATS : list string :=
  [ "%Y-%m-%dT%H:%M:%S.%fZ";
    "%Y-%m-%dT%H:%M:%SZ";
    "%d/%m/%Y %H:%M";
    "%d/%m/%Y %H:%M:%S" ].

Fixpoint try_formats `{Library} (fmts : list string) (value : string) : result Z :=
  match fmts with
  | [] => Raise ValueError
  | fmt :: rest =>
      match strptime value fmt with
      | Some t => Ok t
      | None => try_formats rest value
      end
  end.

(** [parse_dt] *)
Definition parse_dt `{Library} (value : string) : result Z :=
  try_formats DATETIME_FORMATS value.

(** [parse_dt] applied to a decoded value: [strptime] raises [TypeError]
    on anything but text. *)
Definition parse_dt_value `{Library} (value : json) : result Z :=
  match value with
  | JStr s => parse_dt s
  | _ => Raise TypeError
  end.

(** [normalize_label]; [label or ""] turns [None] into the empty text. *)
Definition normalize_label (label : option string) : string :=
  let label := PyStr.upper (default "" label) in
  if PyStr.contains "ATTACK" label then "malicious"
  else if PyStr.contains "UNKNOWN" label then "unknown"
  else "benign".

(** [ActionEvent], with the field types the dataclass declares. *)
Record ActionEvent : Type := {
  timestamp : Z;
  ip : string;
  action : string;
  jail : string;
  reason : option string;
}.

(** An [ActionEvent] as [load_actions] builds it: the dataclass checks no
    field type, so every field but the parsed time stamp holds the decoded
    value of the line as it is ([JNull] is Python's [None]). *)
Record LoadedEvent : Type := {
  loaded_timestamp : Z;
  loaded_ip : json;
  loaded_action : json;
  loaded_jail : json;
  loaded_reason : json;
}.

(** [payload.get]: only a dictionary has it. *)
Definition as_dict (payload : json) : result (gmap string json) :=
  match payload with
  | JObj m => Ok m
  | _ => Raise AttributeError
  end.

(** [payload[key]] *)
Definition getitem (m : gmap string json) (key : string) : result json :=
  match m !! key with
  | Some v => Ok v
  | None => Raise KeyError
  end.

(** [payload.get(key, dflt)] *)
Definition get (m : gmap string json) (key : string) (dflt : json) : json :=
  default dflt (m !! key).

(** The body of the loop of [load_actions] for one non-blank line. *)
Definition load_line `{Library} (line : string) : result LoadedEvent :=
  match json_loads line with
  | None => Raise JSONDecodeError
  | Some payload =>
      let* m := as_dict payload in
      let* stamp :=
        (let v := get m "timestamp" JNull in
         if truthy v then Ok v else getitem m "ts") in
      let* t := parse_dt_value stamp in
      let* addr := getitem m "ip" in
      Ok {| loaded_timestamp := t;
            loaded_ip := addr;
            loaded_action := get m "action" (JStr "ban");
            loaded_jail := get m "jail" (JStr "ssh-proxmox");
            loaded_reason := get m "reason" JNull |}
  end.

(** [load_actions], on the lines of the file. *)
Fixpoint load_actions `{Library} (lines : list string) : result (list LoadedEvent) :=
  match lines with
  | [] => Ok []
  | line :: rest =>
      if PyStr.blank line then load_actions rest
      else
        let* event := load_line line in
        let* events := load_actions rest in
        Ok (event :: events)
  end.

Definition nonblank (line : string) : Prop := PyStr.blank line = false.

(** The three defects of a line the loader does not get past. *)
Definition malformed `{Library} (line : string) : Prop := json_loads line = None.

Definition lacks_ip `{Library} (line : string) : Prop :=
  exists m, json_loads line = Some (JObj m) /\ m !! "ip" = None.

Definition lacks_timestamp `{Library} (line : string) : Prop :=
  exists m, json_loads line = Some (JObj m)
            /\ m !! "timestamp" = None /\ m !! "ts" = None.

(** A library for the examples: it decodes two lines, one with an address
    and a time stamp under [ts], one with a time stamp only, and reads the
    second of the four formats. *)
Definition quoted (s : string) : string :=
  String (ascii_of_nat 34) s +:+ String (ascii_of_nat 34) EmptyString.

Definition example_line : string :=
  "{" +:+ quoted "ip" +:+ ": " +:+ quoted "203.0.113.7" +:+ ", "
  +:+ quoted "ts" +:+ ": " +:+ quoted "2024-12-17T00:00:01Z" +:+ "}".

Definition example_line_without_ip : string :=
  "{" +:+ quoted "ts" +:+ ": " +:+ quoted "2024-12-17T00:00:01Z" +:+ "}".

Definition example_library : Library :=
  {| json_loads line :=
       if String.eqb line example_line then
         Some (JObj (list_to_map [("ip", JStr "203.0.113.7");
                                  ("ts", JStr "2024-12-17T00:00:01Z")]))
       else if String.eqb line example_line_without_ip then
         Some (JObj (list_to_map [("ts", JStr "2024-12-17T00:00:01Z")]))
       else None;
     strptime value fmt :=
       if String.eqb fmt "%Y-%m-%dT%H:%M:%SZ"
          && String.eqb value "2024-12-17T00:00:01Z"
       then Some 63870076801000000 else None |}.

(** A row of the ground-truth table after [load_ground_truth]. *)
Record TruthRow : Type := {
  src_ip : string;
  label_norm : string;
  first_ts_parsed : Z;
}.

(** [event.action.lower() == "ban"] *)
Definition is_ban (event : ActionEvent) : bool :=
  String.eqb (PyStr.lower (action event)) "ban".

Definition is_unban (event : ActionEvent) : bool :=
  String.eqb (PyStr.lower (action event)) "unban".

(** The first loop of [compute_detection_times]: [setdefault] keeps the
    value an address already has. *)
Definition first_ban_step (first_ban : gmap string Z) (event : ActionEvent)
  : gmap string Z :=
  if is_ban event then
    match first_ban !! ip event with
    | Some _ => first_ban
    | None => <[ip event := timestamp event]> first_ban
    end
  else first_ban.

Definition first_bans (actions : list ActionEvent) : gmap string Z :=
  foldl first_ban_step ∅ actions.

Definition detection_step (first_ban : gmap string Z)
  (detection_seconds : gmap string Q) (row : TruthRow) : gmap string Q :=
  match first_ban !! src_ip row with
  | None => detection_seconds
  | Some t =>
      <[src_ip row := total_seconds (t - first_ts_parsed row)]> detection_seconds
  end.

(** [compute_detection_times] *)
Definition compute_detection_times (actions : list ActionEvent)
  (truth : list TruthRow) : gmap string Q :=
  foldl (detection_step (first_bans actions)) ∅ truth.

(** [sorted(actions, key=lambda e: e.timestamp)]: the sort is stable. *)
Fixpoint insert_by_timestamp (event : ActionEvent) (l : list ActionEvent)
  : list ActionEvent :=
  match l with
  | [] => [event]
  | x :: l' =>
      if timestamp event <=? timestamp x then event :: x :: l'
      else x :: insert_by_timestamp event l'
  end.

Fixpoint sorted_by_timestamp (actions : list ActionEvent) : list ActionEvent :=
  match actions with
  | [] => []
  | event :: rest => insert_by_timestamp event (sorted_by_timestamp rest)
  end.

(** The order [sorted] puts two events in. *)
Definition by_timestamp (e1 e2 : ActionEvent) : Prop := timestamp e1 <= timestamp e2.

(** The two dictionaries of [compute_block_durations]. *)
Record BlockState : Type := {
  bans : gmap string (list Z);
  durations : gmap string (list Q);
}.

(** One turn of the loop of [compute_block_durations]. Reading
    [bans[event.ip]] of a [defaultdict] creates the entry when it is
    missing. *)
Definition block_step (st : BlockState) (event : ActionEvent) : BlockState :=
  if is_ban event then
    {| bans := <[ip event := default [] (bans st !! ip event) ++ [timestamp event]]> (bans st);
       durations := durations st |}
  else if is_unban event then
    match default [] (bans st !! ip event) with
    | [] =>
        {| bans := <[ip event := []]> (bans st); durations := durations st |}
    | start :: pending =>
        {| bans := <[ip event := pending]> (bans st);
           durations :=
             <[ip event := default [] (durations st !! ip event)
                           ++ [total_seconds (timestamp event - start)]]>
               (durations st) |}
    end
  else st.

(** [compute_block_durations] *)
Definition compute_block_durations (actions : list ActionEvent)
  : gmap string (list Q) :=
  durations (foldl block_step {| bans := ∅; durations := ∅ |}
               (sorted_by_timestamp actions)).

(** The pairing rule in the words of the specification, for the events of
    one address in the order they are processed: a ban joins the queue of
    pending bans, an unban closes the oldest pending ban and records the
    time between the two, an unban with nothing pending is dropped. *)
Fixpoint spec_fifo_durations (pending : list Z) (events : list ActionEvent)
  : list Q :=
  match events with
  | [] => []
  | event :: rest =>
      if is_ban event then spec_fifo_durations (pending ++ [timestamp event]) rest
      else if is_unban event then
        match pending with
        | [] => spec_fifo_durations [] rest
        | start :: pending' =>
            total_seconds (timestamp event - start)
            :: spec_fifo_durations pending' rest
        end
      else spec_fifo_durations pending rest
  end.

(** What the loop has recorded for address [a], and what is still pending. *)
Definition recorded (st : BlockState) (a : string) : list Q :=
  default [] (durations st !! a).

Definition pending_of (st : BlockState) (a : string) : list Z :=
  default [] (bans st !! a).

(** The invariant of the loop: every pending ban is at most as late as
    every event still to come, and no recorded duration is negative. *)
Definition pending_before (st : BlockState) (events : list ActionEvent) : Prop :=
  forall (a : string) (t : Z) (e : ActionEvent),
    t ∈ pending_of st a -> e ∈ events -> t <= timestamp e.

Definition durations_nonneg (st : BlockState) : Prop :=
  forall a : string, Forall (fun d => (0 <= d)%Q) (recorded st a).

(** No entry of the durations is an empty list. *)
Definition entries_nonempty (st : BlockState) : Prop :=
  forall a : string, durations st !! a <> Some [].

(** [summarize] *)
Record Summary : Type := {
  count : nat;
  avg : Q;
  median : Q;
  minimum : Q;
  maximum : Q;
}.

Definition sum (data : list Q) : Q := foldl Qplus 0%Q data.

Definition of_nat (n : nat) : Q := inject_Z (Z.of_nat n).

Fixpoint insert_sorted (x : Q) (l : list Q) : list Q :=
  match l with
  | [] => [x]
  | y :: l' => if Qle_bool x y then x :: y :: l' else y :: insert_sorted x l'
  end.

Definition sorted (data : list Q) : list Q := foldr insert_sorted [] data.

(** [statistics.median] of a non-empty list. *)
Definition statistics_median (data : list Q) : Q :=
  let s := sorted data in
  let n := length s in
  if Nat.odd n then nth (n / 2)%nat s 0%Q
  else ((nth (n / 2 - 1)%nat s 0 + nth (n / 2)%nat s 0) / 2)%Q.

(** [summarize]. The average is the exact quotient; the float quotient of
    the program is its rounding, and can lie just outside the range of the
    data. *)
Definition summarize (data : list Q) : Summary :=
  match data with
  | [] => {| count := 0; avg := 0; median := 0; minimum := 0; maximum := 0 |}
  | x :: rest =>
      {| count := length data;
         avg := (sum data / of_nat (length data))%Q;
         median := statistics_median data;
         minimum := foldl py_min x rest;
         maximum := foldl py_max x rest |}
  end.

(** The address sets of [compute_metrics]. *)
Definition ips_labelled (label : string) (truth : list TruthRow) : gset string :=
  list_to_set (src_ip <$> filter (fun row => label_norm row = label) truth).

Definition malicious_ips : list TruthRow -> gset string := ips_labelled "malicious".
Definition benign_ips : list TruthRow -> gset string := ips_labelled "benign".
Definition unknown_ips : list TruthRow -> gset string := ips_labelled "unknown".

Definition banned_ips (actions : list ActionEvent) : gset string :=
  list_to_set (ip <$> filter (fun event => is_ban event = true) actions).

(** The confusion counts and rates [compute_metrics] computes. *)
Definition true_positive (actions : list ActionEvent) (truth : list TruthRow) : nat :=
  size (banned_ips actions ∩ malicious_ips truth).

Definition false_positive (actions : list ActionEvent) (truth : list TruthRow) : nat :=
  size (banned_ips actions ∩ benign_ips truth).

Definition false_negative (actions : list ActionEvent) (truth : list TruthRow) : nat :=
  size (malicious_ips truth ∖ banned_ips actions).

Definition true_negative (actions : list ActionEvent) (truth : list TruthRow) : nat :=
  size (benign_ips truth) - false_positive actions truth.

(** A set is true when it is not empty. *)
Definition nonempty (X : gset string) : bool := negb (Nat.eqb (size X) 0).

Definition tpr (actions : list ActionEvent) (truth : list TruthRow) : Q :=
  if nonempty (malicious_ips truth)
  then (of_nat (true_positive actions truth) / of_nat (size (malicious_ips truth)))%Q
  else 0%Q.

Definition fpr (actions : list ActionEvent) (truth : list TruthRow) : Q :=
  if nonempty (benign_ips truth)
  then (of_nat (false_positive actions truth) / of_nat (size (benign_ips truth)))%Q
  else 0%Q.

Definition accuracy_of (actions : list ActionEvent) (truth : list TruthRow) : Q :=
  if nonempty (malicious_ips truth) || nonempty (benign_ips truth)
  then (of_nat (true_positive actions truth + true_negative actions truth)
        / of_nat (size (malicious_ips truth) + size (benign_ips truth)))%Q
  else 0%Q.

Record Counts : Type := {
  count_malicious_ips : nat;
  count_benign_ips : nat;
  count_unknown_ips : nat;
  count_banned_ips : nat;
}.

(** The dictionary [compute_metrics] returns. *)
Record MetricsResult : Type := {
  counts : Counts;
  metrics_tpr : Q;
  metrics_fpr : Q;
  accuracy : Q;
  detection_seconds : Summary;
  blocking_seconds : Summary;
  detection_by_ip : gmap string Q;
  blocking_by_ip : gmap string (list Q);
}.

(** [compute_metrics] *)
Definition compute_metrics (actions : list ActionEvent) (truth : list TruthRow)
  : MetricsResult :=
  let detection_times :=
    compute_detection_times actions
      (filter (fun row => label_norm row = "malicious") truth) in
  let block_durations := compute_block_durations actions in
  {| counts :=
       {| count_malicious_ips := size (malicious_ips truth);
          count_benign_ips := size (benign_ips truth);
          count_unknown_ips := size (unknown_ips truth);
          count_banned_ips := size (banned_ips actions) |};
     metrics_tpr := tpr actions truth;
     metrics_fpr := fpr actions truth;
     accuracy := accuracy_of actions truth;
     detection_seconds := summarize (snd <$> map_to_list detection_times);
     blocking_seconds := summarize (concat (snd <$> map_to_list block_durations));
     detection_by_ip := detection_times;
     blocking_by_ip := block_durations |}.

(** An entry of the run history. *)
Record RunEntry : Type := {
  run_id : string;
  notes : string;
  metrics : MetricsResult;
}.

Definition mean (data : list Q) : Q := (sum data / of_nat (length data))%Q.

(** [statistics.variance]: the sample variance. *)
Definition variance (data : list Q) : Q :=
  let m := mean data in
  (sum ((fun x => (x - m) * (x - m)) <$> data) / of_nat (length data - 1))%Q.

(** [statistics.stdev]: it raises [StatisticsError] on fewer than two
    data points. *)
Definition stdev (data : list Q) : result R :=
  if (length data <? 2)%nat then Raise StatisticsError
  else Ok (sqrt (Q2R (variance data))).

(** The dictionary [update_history] returns; a key that is not set is
    [None]. *)
Record Repeatability : Type := {
  detection_seconds_std : option R;
  accuracy_std : option R;
}.

Definition detection_vals (history : list RunEntry) : list Q :=
  (fun h => avg (detection_seconds (metrics h)))
    <$> filter (fun h => count (detection_seconds (metrics h)) <> 0%nat) history.

Definition accuracy_vals (history : list RunEntry) : list Q :=
  (fun h => accuracy (metrics h)) <$> history.

(** [repeatability[key] = statistics.stdev(vals)] under [if vals:]. *)
Definition stdev_if_any (vals : list Q) : result (option R) :=
  match vals with
  | [] => Ok None
  | _ :: _ => let* s := stdev vals in Ok (Some s)
  end.

(** [update_history]: [stored] is the history the file holds ([None] when
    there is no file); the result is the history written back and what
    the call returns or raises. *)
Definition update_history (stored : option (list RunEntry)) (run_entry : RunEntry)
  : list RunEntry * result Repeatability :=
  let history := default [] stored ++ [run_entry] in
  (history,
   if (2 <=? length history)%nat then
     let* d := stdev_if_any (detection_vals history) in
     let* a := stdev_if_any (accuracy_vals history) in
     Ok {| detection_seconds_std := d; accuracy_std := a |}
   else Ok {| detection_seconds_std := None; accuracy_std := None |}).

(** *** The ground-truth table

    The frame [pd.read_parquet] returns is given by the names of its
    columns and its rows; of a row the loader reads three cells: the
    address, the label (text, or nothing) and the first time stamp, which
    is text or a time stamp of the frame's own type, given by its point on
    the time line. *)
Inductive stamp_cell : Type :=
  | StampText (s : string)
  | StampNative (t : Z).

Record RawRow : Type := {
  raw_src_ip : string;
  raw_label : option string;
  raw_first_ts : stamp_cell;
}.

Definition REQUIRED_COLUMNS : list string := ["src_ip"; "label"; "first_ts"].

(** [parse_dt(x) if isinstance(x, str) else pd.to_datetime(x).to_pydatetime()] *)
Definition parse_first_ts `{Library} (cell : stamp_cell) : result Z :=
  match cell with
  | StampText s => parse_dt s
  | StampNative t => Ok t
  end.

Definition load_row `{Library} (row : RawRow) : result TruthRow :=
  let* t := parse_first_ts (raw_first_ts row) in
  Ok {| src_ip := raw_src_ip row;
        label_norm := normalize_label (raw_label row);
        first_ts_parsed := t |}.

Fixpoint load_rows `{Library} (rows : list RawRow) : result (list TruthRow) :=
  match rows with
  | [] => Ok []
  | row :: rest =>
      let* r := load_row row in
      let* rs := load_rows rest in
      Ok (r :: rs)
  end.

(** [load_ground_truth], on the frame read from the file. *)
Definition load_ground_truth `{Library} (columns : list string) (rows : list RawRow)
  : result (list TruthRow) :=
  if forallb (fun c => bool_decide (c ∈ columns)) REQUIRED_COLUMNS
  then load_rows rows
  else Raise ValueError.

(** The addresses of a table. *)
Definition all_ips (truth : list TruthRow) : gset string :=
  list_to_set (src_ip <$> truth).

End Collect.

(** ** replay.py *)

Module Replay.

Definition SYSLOG_MONTHS : gmap string Z :=
  list_to_map
    [ ("Jan", 1); ("Feb", 2); ("Mar", 3); ("Apr", 4); ("May", 5); ("Jun", 6);
      ("Jul", 7); ("Aug", 8); ("Sep", 9); ("Oct", 10); ("Nov", 11); ("Dec", 12) ].

(** A naive [datetime]. *)
Record datetime : Type := {
  year : Z;
  month : Z;
  day : Z;
  hour : Z;
  minute : Z;
  second : Z;
  microsecond : Z;
}.

Record LogLine : Type := {
  raw : string;
  timestamp : datetime;
}.

Definition is_leap (y : Z) : bool :=
  (y mod 4 =? 0) && (negb (y mod 100 =? 0) || (y mod 400 =? 0)).

Definition days_in_month (y m : Z) : Z :=
  if m =? 2 then (if is_leap y then 29 else 28)
  else if (m =? 4) || (m =? 6) || (m =? 9) || (m =? 11) then 30
  else 31.

(** The range checks of the [datetime] constructor. *)
Definition valid (d : datetime) : bool :=
  (1 <=? year d) && (year d <=? 9999)
  && (1 <=? month d) && (month d <=? 12)
  && (1 <=? day d) && (day d <=? days_in_month (year d) (month d))
  && (0 <=? hour d) && (hour d <=? 23)
  && (0 <=? minute d) && (minute d <=? 59)
  && (0 <=? second d) && (second d <=? 59)
  && (0 <=? microsecond d) && (microsecond d <=? 999999).

(** [datetime(...)]: [ValueError] when a field is out of range. *)
Definition checked (d : datetime) : result datetime :=
  if valid d then Ok d else Raise ValueError.

Definition with_year (d : datetime) (y : Z) : datetime :=
  {| year := y; month := month d; day := day d; hour := hour d;
     minute := minute d; second := second d; microsecond := microsecond d |}.

Definition fields (d : datetime) : list Z :=
  [year d; month d; day d; hour d; minute d; second d; microsecond d].

(** A number that fits the C [int] the constructor reads its arguments
    into. *)
Definition fits_int (n : Z) : bool := (- 2 ^ 31 <=? n) && (n <? 2 ^ 31).

(** [datetime(...)] on numbers of any size: one that does not fit a C [int]
    raises [OverflowError], before the ranges are looked at. *)
Definition construct (d : datetime) : result datetime :=
  if forallb fits_int (fields d) then checked d else Raise OverflowError.

(** [d.replace(year=y)] builds a new [datetime], so it checks again. *)
Definition replace_year (d : datetime) (y : Z) : result datetime :=
  construct (with_year d y).

(** 29 February, the one date that does not exist in every year. *)
Definition leap_day (d : datetime) : bool := (month d =? 2) && (day d =? 29).

Fixpoint lex_lt (a b : list Z) : bool :=
  match a, b with
  | x :: a', y :: b' => (x <? y) || ((x =? y) && lex_lt a' b')
  | _, _ => false
  end.

(** [a < b] on two naive datetimes. *)
Definition lt (a b : datetime) : bool := lex_lt (fields a) (fields b).

Definition days_before_year (y : Z) : Z :=
  let p := y - 1 in p * 365 + p / 4 - p / 100 + p / 400.

Definition days_before_month (y m : Z) : Z :=
  nth (Z.to_nat (m - 1)) [0; 31; 59; 90; 120; 151; 181; 212; 243; 273; 304; 334] 0
  + (if (2 <? m) && is_leap y then 1 else 0).

Definition toordinal (d : datetime) : Z :=
  days_before_year (year d) + days_before_month (year d) (month d) + day d.

Definition to_micro (d : datetime) : Z :=
  ((toordinal d * 86400 + hour d * 3600 + minute d * 60 + second d) * 1000000)
  + microsecond d.

(** [(a - b).total_seconds()] *)
Definition seconds_between (a b : datetime) : Q :=
  total_seconds (to_micro a - to_micro b).

(** One or two decimal digits with a value of at most [limit]. *)
Definition field (limit : Z) (s : string) : option Z :=
  match s with
  | String a EmptyString => PyStr.digit_val a
  | String a (String b EmptyString) =>
      match PyStr.digit_val a, PyStr.digit_val b with
      | Some x, Some y => if 10 * x + y <=? limit then Some (10 * x + y) else None
      | _, _ => None
      end
  | _ => None
  end.

(** [datetime.strptime(s, "%H:%M:%S")], as hour, minute and second. The
    directive for seconds reads 60 and 61 too, which the constructor then
    refuses: both ways the call raises [ValueError]. *)
Definition strptime_hms (s : string) : result (Z * Z * Z) :=
  match PyStr.split ":" s with
  | [h; m; sec] =>
      match field 23 h, field 59 m, field 59 sec with
      | Some h, Some m, Some sec => Ok (h, m, sec)
      | _, _, _ => Raise ValueError
      end
  | _ => Raise ValueError
  end.

(** The candidate of [parse_syslog_timestamp], before the year is settled. *)
Definition candidate_of (line : string) (current_year month_number : Z)
  : result datetime :=
  let* d := PyStr.int (PyStr.slice 4 6 line) in
  let* ts := strptime_hms (PyStr.slice 7 15 line) in
  let '(h, m, sec) := ts in
  construct {| year := current_year; month := month_number; day := d; hour := h;
               minute := m; second := sec; microsecond := 0 |}.

(** [parse_syslog_timestamp] *)
Definition parse_syslog_timestamp (line : string) (current_year : Z)
  (previous : option datetime) : result datetime :=
  match SYSLOG_MONTHS !! PyStr.slice 0 3 line with
  | None => Raise ValueError
  | Some month_number =>
      let* candidate := candidate_of line current_year month_number in
      match previous with
      | Some previous =>
          if lt candidate previous && (month_number =? 1) && (month previous =? 12)
          then replace_year candidate (year previous + 1)
          else if year candidate <? year previous
          then replace_year candidate (year previous)
          else Ok candidate
      | None => Ok candidate
      end
  end.

(** The pattern [parse_syslog_timestamp] reads as the turn of the year. *)
Definition rollover (candidate previous : datetime) : Prop :=
  lt candidate previous = true /\ month candidate = 1 /\ month previous = 12.

(** What a run of [replay] does to the outside, in order: sleeping,
    running the sink on a text, printing a line (dry run), and the two
    messages on standard error (the elapsed wall time the progress message
    also shows is left out). *)
Inductive effect : Type :=
  | Sleep (seconds : Q)
  | Run (input : string)
  | Print (line : string)
  | Status (emitted : Z) (last_ts : datetime)
  | Finished (emitted : Z).

(** What a Python call hands back. *)
Inductive pyvalue : Type :=
  | PyNone
  | PyInt (n : Z).

(** The arguments of [replay] besides the lines. [cmd] stands for the sink:
    [cmd input] tells whether [subprocess.run(cmd, input=input)] exits with
    status zero. *)
Record Config : Type := {
  speed_factor : Q;
  sleep_cap : Q;
  status_interval : Z;
  cmd : string -> bool;
  dry_run : bool;
  max_lines : option Z;
}.

(** A computation with effects: the trace so far and a value or an
    exception. *)
Definition M (A : Type) : Type := list effect * result A.

Definition ret {A : Type} (a : A) : M A := ([], Ok a).
Definition tell (e : effect) : M unit := ([e], Ok tt).
Definition raise {A : Type} (e : exn) : M A := ([], Raise e).

Definition seq {A B : Type} (m : M A) (k : A -> M B) : M B :=
  match m with
  | (t, Ok a) => let '(t', r) := k a in (t ++ t', r)
  | (t, Raise e) => (t, Raise e)
  end.

Notation "'do' x '<-' m ';' k" := (seq m (fun x => k))
  (at level 10, x name, m at level 100, k at level 200).
Notation "m ';;' k" := (seq m (fun _ => k))
  (at level 100, k at level 200, right associativity).

(** The sleep before a line: lines 176 to 180 of [replay]. *)
Definition pace (cfg : Config) (last_ts : option datetime) (line : LogLine)
  : M unit :=
  match last_ts with
  | None => ret tt
  | Some last =>
      let delta := seconds_between (timestamp line) last in
      if Qlt_le_dec 0 delta then
        if Qeq_bool (speed_factor cfg) 0 then raise ZeroDivisionError
        else
          let scaled := py_min (delta / speed_factor cfg) (sleep_cap cfg) in
          tell (Sleep (py_max 0 scaled))
      else ret tt
  end.

Definition newline : string := String "010" EmptyString.

(** [emit_line] *)
Definition emit_line (cfg : Config) (line : string) : M unit :=
  if dry_run cfg then tell (Print line)
  else
    tell (Run (line +:+ newline)) ;;
    if cmd cfg (line +:+ newline) then ret tt else raise CalledProcessError.

Record LoopState : Type := {
  emitted : Z;
  last_ts : option datetime;
}.

Inductive control : Type := Continue | Break.

(** [max_lines and emitted >= max_lines] *)
Definition limit_reached (cfg : Config) (n : Z) : bool :=
  match max_lines cfg with
  | Some limit => negb (limit =? 0) && (limit <=? n)
  | None => false
  end.

(** One turn of the loop of [replay]. *)
Definition body (cfg : Config) (st : LoopState) (line : LogLine)
  : M (LoopState * control) :=
  pace cfg (last_ts st) line ;;
  emit_line cfg (raw line) ;;
  let n := emitted st + 1 in
  (if negb (status_interval cfg =? 0) && (n mod status_interval cfg =? 0)
   then tell (Status n (timestamp line)) else ret tt) ;;
  ret ({| emitted := n; last_ts := Some (timestamp line) |},
       if limit_reached cfg n then Break else Continue).

Fixpoint loop (cfg : Config) (st : LoopState) (lines : list LogLine) : M LoopState :=
  match lines with
  | [] => ret st
  | line :: rest =>
      do next <- body cfg st line ;
      match snd next with
      | Break => ret (fst next)
      | Continue => loop cfg (fst next) rest
      end
  end.

(** [replay]: the function ends with the message on standard error and
    returns nothing. *)
Definition replay (cfg : Config) (lines : list LogLine) : M pyvalue :=
  do st <- loop cfg {| emitted := 0; last_ts := None |} lines ;
  tell (Finished (emitted st)) ;;
  ret PyNone.

(** *** Reading a trace *)

Definition sleep_of (e : effect) : option Q :=
  match e with Sleep q => Some q | _ => None end.

Definition emission_of (e : effect) : option string :=
  match e with Run input => Some input | Print line => Some line | _ => None end.

(** The sleeps of a run, in order. *)
Definition sleeps (trace : list effect) : list Q := omap sleep_of trace.

(** The texts a run has emitted, in order. *)
Definition emissions (trace : list effect) : list string := omap emission_of trace.

(** The text an emitted line shows up as: printed as it is on a dry run,
    handed to the sink with a newline otherwise. *)
Definition emitted_text (cfg : Config) (line : LogLine) : string :=
  if dry_run cfg then raw line else raw line +:+ newline.

(** The emission of a line does not fail. *)
Definition emits_ok (cfg : Config) (line : LogLine) : Prop :=
  dry_run cfg = true \/ cmd cfg (raw line +:+ newline) = true.

(** The sleep before [line] when the line before it had time stamp [last]:
    for a positive gap, the scaled gap capped by [sleep_cap] and raised to
    zero when that is negative. *)
Definition sleep_for (cfg : Config) (last : option datetime) (line : LogLine)
  : list Q :=
  match last with
  | None => []
  | Some last =>
      let delta := seconds_between (timestamp line) last in
      if Qlt_le_dec 0 delta
      then [py_max 0 (py_min (delta / speed_factor cfg) (sleep_cap cfg))]
      else []
  end.

Fixpoint gap_sleeps (cfg : Config) (last : option datetime) (lines : list LogLine)
  : list Q :=
  match lines with
  | [] => []
  | line :: rest =>
      sleep_for cfg last line ++ gap_sleeps cfg (Some (timestamp line)) rest
  end.

(** The same with the sleep of the specification's sentence: the scaled
    gap capped by [sleep_cap], and nothing more. *)
Definition claimed_sleep_for (cfg : Config) (last : option datetime) (line : LogLine)
  : list Q :=
  match last with
  | None => []
  | Some last =>
      let delta := seconds_between (timestamp line) last in
      if Qlt_le_dec 0 delta
      then [py_min (delta / speed_factor cfg) (sleep_cap cfg)]
      else []
  end.

Fixpoint claimed_gap_sleeps (cfg : Config) (last : option datetime)
  (lines : list LogLine) : list Q :=
  match lines with
  | [] => []
  | line :: rest =>
      claimed_sleep_for cfg last line
      ++ claimed_gap_sleeps cfg (Some (timestamp line)) rest
  end.

(** The lines a run gets to when [n] lines have been emitted before: all
    of them without a limit (a limit of 0 counts as none), and otherwise
    as many as bring the count to the limit, and one at least. *)
Definition reached (cfg : Config) (n : Z) (lines : list LogLine) : list LogLine :=
  match max_lines cfg with
  | None => lines
  | Some limit =>
      if limit =? 0 then lines
      else take (Z.to_nat (Z.max 1 (limit - n))) lines
  end.

(** The effects one turn of the loop can have, for the state it starts in
    and the line it handles. *)
Definition turn_effect (cfg : Config) (st : LoopState) (line : LogLine)
  (e : effect) : Prop :=
  (exists last,
      last_ts st = Some last
      /\ (0 < seconds_between (timestamp line) last)%Q
      /\ e = Sleep (py_max 0 (py_min (seconds_between (timestamp line) last
                                      / speed_factor cfg) (sleep_cap cfg))))
  \/ (dry_run cfg = true /\ e = Print (raw line))
  \/ (dry_run cfg = false /\ e = Run (raw line +:+ newline))
  \/ (status_interval cfg <> 0
      /\ (emitted st + 1) mod status_interval cfg = 0
      /\ e = Status (emitted st + 1) (timestamp line)).

Definition is_run (e : effect) : bool :=
  match e with Run _ => true | _ => false end.

Definition is_print (e : effect) : bool :=
  match e with Print _ => true | _ => false end.

Definition status_of (e : effect) : option (Z * datetime) :=
  match e with Status n t => Some (n, t) | _ => None end.

(** The progress messages of a run, in order. *)
Definition statuses (trace : list effect) : list (Z * datetime) :=
  omap status_of trace.

(** The progress messages due for [lines] when [n] lines have been emitted
    before. *)
Fixpoint due_statuses (cfg : Config) (n : Z) (lines : list LogLine)
  : list (Z * datetime) :=
  match lines with
  | [] => []
  | line :: rest =>
      (if negb (status_interval cfg =? 0) && ((n + 1) mod status_interval cfg =? 0)
       then [(n + 1, timestamp line)] else [])
      ++ due_statuses cfg (n + 1) rest
  end.

(** *** The log source *)

(** [ip_filter and ip_filter not in raw] *)
Definition filtered_out (ip_filter : option string) (raw : string) : bool :=
  match ip_filter with
  | Some f => negb (String.eqb f "") && negb (PyStr.contains f raw)
  | None => false
  end.

(** The lines [read_log_lines] goes on with. *)
Definition kept (ip_filter : option string) (raw : string) : Prop :=
  PyStr.blank raw = false /\ filtered_out ip_filter raw = false.

Fixpoint drop_newlines (s : string) : string :=
  match s with
  | String c s' => if Ascii.eqb c "010" then drop_newlines s' else s
  | EmptyString => EmptyString
  end.

(** [raw.rstrip("\n")] *)
Definition rstrip_newlines (s : string) : string :=
  String.rev (drop_newlines (String.rev s)).

(** The loop of [read_log_lines] from a state of its two variables. The
    generator is given by what its consumer gets when it takes everything:
    the lines yielded, and the exception that ends the iteration if there
    is one. *)
Fixpoint read_from (raws : list string) (year_hint : Z)
  (previous_ts : option datetime) (ip_filter : option string)
  : list LogLine * option exn :=
  match raws with
  | [] => ([], None)
  | line :: rest =>
      if PyStr.blank line then read_from rest year_hint previous_ts ip_filter
      else if filtered_out ip_filter line
      then read_from rest year_hint previous_ts ip_filter
      else
        match parse_syslog_timestamp line year_hint previous_ts with
        | Raise e => ([], Some e)
        | Ok t =>
            let '(lines, outcome) := read_from rest (year t) (Some t) ip_filter in
            ({| raw := rstrip_newlines line; timestamp := t |} :: lines, outcome)
        end
  end.

(** [read_log_lines], on the lines of the file. *)
Definition read_log_lines (raws : list string) (start_year : Z)
  (ip_filter : option string) : list LogLine * option exn :=
  read_from raws start_year None ip_filter.

(** From one yielded line to the next the year stays or goes up by one. *)
Definition year_step (a b : LogLine) : Prop :=
  year (timestamp a) <= year (timestamp b) <= year (timestamp a) + 1.

(** The two variables of [read_log_lines], [year_hint] and [previous_ts],
    once it has yielded [lines] from the state [st]: they are the year and
    the time stamp of the last line yielded. *)
Definition state_after (lines : list LogLine) (st : Z * option datetime)
  : Z * option datetime :=
  match last lines with
  | Some l => (year (timestamp l), Some (timestamp l))
  | None => st
  end.

(** What [parse_syslog_timestamp] makes of a line in a state of the two
    variables. *)
Definition parse_in (st : Z * option datetime) (line : string) : result datetime :=
  parse_syslog_timestamp line (fst st) (snd st).

End Replay.

(** ** action_logger.py *)

Module Logger.

(** The two library functions the hook calls: [json.dumps] and
    [datetime.strftime] of a point of the time line. *)
Class Writer : Type := {
  json_dumps : json -> string;
  strftime : Z -> string -> string;
}.

(** The arguments [parse_args] hands over. *)
Record Args : Type := {
  log_file : string;
  action : string;
  ip : string;
  jail : string;
  reason : string;
  match_ts : string;
  log_line : string;
  extra : string;
}.

Definition STAMP_FORMAT : string := "%Y-%m-%dT%H:%M:%S.%fZ".

(** The dictionary [main] builds, at the time [now]. *)
Definition payload `{Writer} (now : Z) (args : Args) : gmap string json :=
  list_to_map
    [ ("timestamp", JStr (strftime now STAMP_FORMAT));
      ("action", JStr (action args));
      ("ip", JStr (ip args));
      ("jail", JStr (jail args));
      ("reason", JStr (reason args));
      ("match_ts", JStr (match_ts args));
      ("log_line", JStr (log_line args));
      ("extra", JStr (extra args)) ].

(** The text [main] writes. *)
Definition logged_line `{Writer} (now : Z) (args : Args) : string :=
  json_dumps (JObj (payload now args)) +:+ Replay.newline.

(** [main] after [parse_args], on the lines of the log file: one line is
    appended ([json.dumps] writes no line break of its own). *)
Definition main `{Writer} (now : Z) (args : Args) (file : list string)
  : list string :=
  file ++ [logged_line now args].

(** A writer and a reader for the examples: one call of the hook, and the
    line it writes read back. *)
Definition example_args : Args :=
  {| log_file := "/var/log/f2b-actions.json"; action := "unban";
     ip := "203.0.113.7"; jail := "sshd"; reason := ""; match_ts := "";
     log_line := ""; extra := "" |}.

Definition example_writer : Writer :=
  {| json_dumps _ := "logged";
     strftime _ _ := "2024-12-17T00:00:01.000000Z" |}.

Definition example_reader : Library :=
  {| json_loads line :=
       if String.eqb line ("logged" +:+ Replay.newline)
       then Some (JObj (@payload example_writer 63870076801000000 example_args))
       else None;
     strptime value fmt :=
       if String.eqb fmt STAMP_FORMAT
          && String.eqb value "2024-12-17T00:00:01.000000Z"
       then Some 63870076801000000 else None |}.

End Logger.

(** * Properties *)

Section PyStrFacts.

Import PyStr.

Lemma app_nil_l (b : string) : "" +:+ b = b.
Proof. reflexivity. Qed.

Lemma app_cons_l (c : ascii) (a b : string) : String c a +:+ b = String c (a +:+ b).
Proof. reflexivity. Qed.

Lemma prefix_spec (p s : string) :
  String.prefix p s = true <-> exists b, s = p +:+ b.
Proof.
  revert s. induction p as [|c p IH]; intros [|d s]; simpl;
    try setoid_rewrite app_nil_l; try setoid_rewrite app_cons_l.
  - split; [intros _; by exists "" | done].
  - split; [intros _; by exists (String d s) | done].
  - split; [done | intros [b Hb]; discriminate].
  - destruct (Ascii.ascii_dec c d) as [->|Hne].
    + rewrite IH. split; intros [b Hb]; exists b; congruence.
    + split; [done | intros [b Hb]; congruence].
Qed.

(** [contains] is the substring test. *)
Lemma contains_spec (p s : string) :
  contains p s = true <-> exists a b, s = a +:+ p +:+ b.
Proof.
  induction s as [|d s IH].
  - change (contains p "") with (String.prefix p "" || false).
    rewrite orb_false_r, prefix_spec. split.
    + intros [b Hb]. by exists "", b.
    + intros [a [b Hb]]. destruct a; [by exists b | discriminate].
  - change (contains p (String d s))
      with (String.prefix p (String d s) || contains p s).
    rewrite orb_true_iff, prefix_spec, IH. split.
    + intros [[b Hb] | [a [b Hb]]].
      * by exists "", b.
      * exists (String d a), b. rewrite app_cons_l. by rewrite Hb.
    + intros [a [b Hb]]. destruct a as [|c a].
      * left. by exists b.
      * right. exists a, b. rewrite app_cons_l in Hb. congruence.
Qed.

Lemma upper_char_lower_char (c : ascii) : upper_char (lower_char c) = upper_char c.
Proof. by destruct c as [[] [] [] [] [] [] [] []]. Qed.

Lemma upper_char_idemp (c : ascii) : upper_char (upper_char c) = upper_char c.
Proof. by destruct c as [[] [] [] [] [] [] [] []]. Qed.

Lemma upper_lower (s : string) : upper (lower s) = upper s.
Proof. induction s as [|c s IH]; simpl; [done|]. by rewrite upper_char_lower_char, IH. Qed.

Lemma upper_idemp (s : string) : upper (upper s) = upper s.
Proof. induction s as [|c s IH]; simpl; [done|]. by rewrite upper_char_idemp, IH. Qed.

End PyStrFacts.

(** ** Label normalisation *)

Section Labels.

Import PyStr Collect.

Lemma normalize_label_cases (label : option string) :
  let text := upper (default "" label) in
  normalize_label label =
    if contains "ATTACK" text then "malicious"
    else if contains "UNKNOWN" text then "unknown" else "benign".
Proof. reflexivity. Qed.

Lemma contains_false (p s : string) : contains p s = false <-> ~ occurs_in p s.
Proof.
  unfold occurs_in. rewrite <- contains_spec.
  destruct (contains p s); split; intros H; done.
Qed.

(** C9. [normalize_label] is total and answers one of malicious, benign
    and unknown: malicious when the upper-cased label contains ATTACK
    (whether or not it contains UNKNOWN too), unknown when it contains
    UNKNOWN and not ATTACK, benign otherwise; labels that differ in letter
    case only get the same answer. *)
Theorem normalize_label_spec (label : option string) :
  let text := upper (default "" label) in
  (normalize_label label = "malicious"
   \/ normalize_label label = "benign"
   \/ normalize_label label = "unknown")
  /\ (occurs_in "ATTACK" text -> normalize_label label = "malicious")
  /\ (~ occurs_in "ATTACK" text -> occurs_in "UNKNOWN" text ->
      normalize_label label = "unknown")
  /\ (~ occurs_in "ATTACK" text -> ~ occurs_in "UNKNOWN" text ->
      normalize_label label = "benign")
  /\ (forall other : string,
        lower other = lower (default "" label) ->
        normalize_label (Some other) = normalize_label label).
Proof.
  intros text. rewrite normalize_label_cases. fold text.
  repeat split.
  - destruct (contains "ATTACK" text); [by left|].
    destruct (contains "UNKNOWN" text); [by right; right | by right; left].
  - intros Ha%contains_spec. by rewrite Ha.
  - intros Ha%contains_false Hu%contains_spec. by rewrite Ha, Hu.
  - intros Ha%contains_false Hu%contains_false. by rewrite Ha, Hu.
  - intros other Hcase. rewrite normalize_label_cases. simpl.
    replace (upper other) with text; [done|].
    unfold text. by rewrite <- (upper_lower other), Hcase, upper_lower.
Qed.

(** A label with both words, in lower case, is malicious. *)
Lemma normalize_label_spec_witness :
  normalize_label (Some "ssh attack from unknown host") = "malicious".
Proof.
  destruct (normalize_label_spec (Some "ssh attack from unknown host"))
    as (_ & Hattack & _).
  apply Hattack. exists "SSH ", " FROM UNKNOWN HOST". reflexivity.
Defined.

End Labels.

(** ** Confusion counts and rates *)

Section Confusion.

Import Collect.

Implicit Types (actions : list ActionEvent) (truth : list TruthRow).

Lemma elem_of_banned_ips actions (a : string) :
  a ∈ banned_ips actions <->
  exists event, event ∈ actions /\ is_ban event = true /\ ip event = a.
Proof.
  unfold banned_ips. rewrite elem_of_list_to_set, list_elem_of_fmap. split.
  - intros [event [-> [Hban Hin]%list_elem_of_filter]]. by exists event.
  - intros [event [Hin [Hban <-]]]. exists event. split; [done|].
    by apply list_elem_of_filter.
Qed.

Lemma elem_of_ips_labelled (label : string) truth (a : string) :
  a ∈ ips_labelled label truth <->
  exists row, row ∈ truth /\ label_norm row = label /\ src_ip row = a.
Proof.
  unfold ips_labelled. rewrite elem_of_list_to_set, list_elem_of_fmap. split.
  - intros [row [-> [Hl Hin]%list_elem_of_filter]]. by exists row.
  - intros [row [Hin [Hl <-]]]. exists row. split; [done|].
    by apply list_elem_of_filter.
Qed.

Lemma false_negative_alt actions truth :
  false_negative actions truth
  = (size (malicious_ips truth) - true_positive actions truth)%nat.
Proof.
  unfold false_negative, true_positive. rewrite size_difference_alt.
  by rewrite (comm_L (∩) (malicious_ips truth)).
Qed.

Lemma nonempty_false (X : gset string) : nonempty X = false <-> X = ∅.
Proof.
  unfold nonempty. rewrite negb_false_iff, Nat.eqb_eq, size_empty_iff.
  split; [apply leibniz_equiv | by intros ->].
Qed.

Lemma nonempty_true (X : gset string) : nonempty X = true <-> X <> ∅.
Proof.
  rewrite <- nonempty_false. destruct (nonempty X); split; congruence.
Qed.

(** A row labelled otherwise adds no address to the set of a label. *)
Lemma ips_labelled_skip (label : string) (row : TruthRow) (before after : list TruthRow) :
  label_norm row <> label ->
  ips_labelled label (before ++ row :: after) = ips_labelled label (before ++ after).
Proof.
  intros Hne. unfold ips_labelled.
  rewrite !filter_app, filter_cons. by destruct (decide (label_norm row = label)).
Qed.

(** C3. With banned the set of addresses that have a ban action, the
    confusion counts are TP = |banned ∩ malicious|, FP = |banned ∩ benign|,
    FN = |malicious| - TP and TN = |benign| - FP, and the rates returned
    are TP/|malicious|, FP/|benign| and (TP+TN)/(|malicious|+|benign|),
    each 0 when its denominator counts an empty set; a row labelled
    unknown changes none of them. *)
Theorem confusion_counts_and_rates actions truth :
  let banned := banned_ips actions in
  let malicious := malicious_ips truth in
  let benign := benign_ips truth in
  let TP := true_positive actions truth in
  let FP := false_positive actions truth in
  let FN := false_negative actions truth in
  let TN := true_negative actions truth in
  let result := compute_metrics actions truth in
  (forall a, a ∈ banned <->
     exists event, event ∈ actions /\ is_ban event = true /\ ip event = a)
  /\ (forall a, a ∈ malicious <->
        exists row, row ∈ truth /\ label_norm row = "malicious" /\ src_ip row = a)
  /\ (forall a, a ∈ benign <->
        exists row, row ∈ truth /\ label_norm row = "benign" /\ src_ip row = a)
  /\ TP = size (banned ∩ malicious)
  /\ FP = size (banned ∩ benign)
  /\ FN = (size malicious - TP)%nat
  /\ TN = (size benign - FP)%nat
  /\ (TP <= size malicious)%nat
  /\ (FP <= size benign)%nat
  /\ metrics_tpr result
     = (if decide (malicious = ∅) then 0 else of_nat TP / of_nat (size malicious))%Q
  /\ metrics_fpr result
     = (if decide (benign = ∅) then 0 else of_nat FP / of_nat (size benign))%Q
  /\ accuracy result
     = (if decide (malicious = ∅ /\ benign = ∅) then 0
        else of_nat (TP + TN) / of_nat (size malicious + size benign))%Q
  /\ (forall (row : TruthRow) (before after : list TruthRow),
        truth = before ++ row :: after ->
        label_norm row = "unknown" ->
        let truth' := before ++ after in
        true_positive actions truth' = TP
        /\ false_positive actions truth' = FP
        /\ false_negative actions truth' = FN
        /\ true_negative actions truth' = TN
        /\ metrics_tpr (compute_metrics actions truth') = metrics_tpr result
        /\ metrics_fpr (compute_metrics actions truth') = metrics_fpr result
        /\ accuracy (compute_metrics actions truth') = accuracy result).
Proof.
  intros banned malicious benign TP FP FN TN result.
  split; [apply elem_of_banned_ips|].
  split; [apply elem_of_ips_labelled|].
  split; [apply elem_of_ips_labelled|].
  split; [done|]. split; [done|].
  split; [apply false_negative_alt|].
  split; [done|].
  split; [apply subseteq_size, intersection_subseteq_r|].
  split; [apply subseteq_size, intersection_subseteq_r|].
  split; [|split; [|split]].
  - simpl. unfold tpr. fold malicious TP.
    destruct (nonempty malicious) eqn:Hm.
    + apply nonempty_true in Hm. by destruct (decide (malicious = ∅)).
    + apply nonempty_false in Hm. by destruct (decide (malicious = ∅)).
  - simpl. unfold fpr. fold benign FP.
    destruct (nonempty benign) eqn:Hb.
    + apply nonempty_true in Hb. by destruct (decide (benign = ∅)).
    + apply nonempty_false in Hb. by destruct (decide (benign = ∅)).
  - simpl. unfold accuracy_of. fold malicious benign TP TN.
    destruct (decide (malicious = ∅ /\ benign = ∅)) as [[Hm Hb]|Hn].
    + by rewrite (proj2 (nonempty_false _) Hm), (proj2 (nonempty_false _) Hb).
    + destruct (nonempty malicious) eqn:Hm; [done|].
      destruct (nonempty benign) eqn:Hb; [done|].
      exfalso. apply Hn. split; by apply nonempty_false.
  - intros row before after -> Hrow truth'.
    assert (Hm : malicious_ips (before ++ row :: after) = malicious_ips truth')
      by (apply ips_labelled_skip; by rewrite Hrow).
    assert (Hb : benign_ips (before ++ row :: after) = benign_ips truth')
      by (apply ips_labelled_skip; by rewrite Hrow).
    subst TP FP FN TN result. simpl.
    unfold tpr, fpr, accuracy_of, true_negative, false_negative,
      false_positive, true_positive.
    by rewrite Hm, Hb.
Qed.

(** The example of the specification: malicious = {A, B}, benign = {C, D},
    banned = {A, C}. *)
Example confusion_example :
  let event a := {| timestamp := 0; ip := a; action := "ban";
                    jail := "ssh-proxmox"; reason := None |} in
  let row a l := {| src_ip := a; label_norm := l; first_ts_parsed := 0 |} in
  let actions := [event "A"; event "C"] in
  let truth := [row "A" "malicious"; row "B" "malicious";
                row "C" "benign"; row "D" "benign"] in
  true_positive actions truth = 1%nat
  /\ false_positive actions truth = 1%nat
  /\ false_negative actions truth = 1%nat
  /\ true_negative actions truth = 1%nat
  /\ (metrics_tpr (compute_metrics actions truth) == 1 # 2)%Q
  /\ (metrics_fpr (compute_metrics actions truth) == 1 # 2)%Q
  /\ (accuracy (compute_metrics actions truth) == 1 # 2)%Q.
Proof. vm_compute. repeat split; reflexivity. Qed.

(** Taking the unknown address U out of a table of one malicious, one
    unknown and one benign address leaves the accuracy as it is. *)
Lemma confusion_counts_and_rates_witness :
  let event a := {| timestamp := 0; ip := a; action := "ban";
                    jail := "ssh-proxmox"; reason := None |} in
  let row a l := {| src_ip := a; label_norm := l; first_ts_parsed := 0 |} in
  let actions := [event "A"; event "U"] in
  accuracy (compute_metrics actions [row "A" "malicious"; row "C" "benign"])
  = accuracy (compute_metrics actions
                [row "A" "malicious"; row "U" "unknown"; row "C" "benign"]).
Proof.
  intros event row actions.
  destruct (confusion_counts_and_rates actions
              [row "A" "malicious"; row "U" "unknown"; row "C" "benign"])
    as (_ & _ & _ & _ & _ & _ & _ & _ & _ & _ & _ & _ & Hunknown).
  destruct (Hunknown (row "U" "unknown") [row "A" "malicious"] [row "C" "benign"]
              eq_refl eq_refl) as (_ & _ & _ & _ & _ & _ & Hacc).
  exact Hacc.
Defined.

End Confusion.

(** ** Block durations *)

Section BlockDurations.

Import Collect.

Implicit Types (actions events : list ActionEvent) (st : BlockState).

Lemma insert_by_timestamp_perm (e : ActionEvent) events :
  insert_by_timestamp e events ≡ₚ e :: events.
Proof.
  induction events as [|x l IH]; simpl; [done|].
  destruct (timestamp e <=? timestamp x); [done|].
  rewrite IH. apply Permutation_swap.
Qed.

Lemma sorted_by_timestamp_perm actions : sorted_by_timestamp actions ≡ₚ actions.
Proof.
  induction actions as [|e l IH]; simpl; [done|].
  by rewrite insert_by_timestamp_perm, IH.
Qed.

Lemma insert_by_timestamp_sorted (e : ActionEvent) events :
  StronglySorted by_timestamp events ->
  StronglySorted by_timestamp (insert_by_timestamp e events).
Proof.
  induction 1 as [|x l Hl IH Hx]; simpl.
  - repeat constructor.
  - destruct (Z.leb_spec (timestamp e) (timestamp x)) as [Hle|Hgt].
    + constructor; [by constructor|].
      constructor; [done|].
      eapply Forall_impl; [exact Hx|]. unfold by_timestamp. intros y Hy. lia.
    + constructor; [done|].
      rewrite insert_by_timestamp_perm. constructor; [|done].
      unfold by_timestamp. lia.
Qed.

Lemma sorted_by_timestamp_sorted actions :
  StronglySorted by_timestamp (sorted_by_timestamp actions).
Proof.
  induction actions as [|e l IH]; simpl; [constructor|].
  by apply insert_by_timestamp_sorted.
Qed.

(** The sort is stable: events with one time stamp keep their order. *)
Lemma insert_by_timestamp_stable (t : Z) (e : ActionEvent) events :
  filter (fun x => timestamp x = t) (insert_by_timestamp e events)
  = filter (fun x => timestamp x = t) (e :: events).
Proof.
  induction events as [|x l IH]; simpl; [done|].
  destruct (Z.leb_spec (timestamp e) (timestamp x)) as [Hle|Hgt]; [done|].
  rewrite !filter_cons in *.
  destruct (decide (timestamp e = t)) as [He|He],
           (decide (timestamp x = t)) as [Hx|Hx]; try lia; by rewrite IH.
Qed.

Lemma sorted_by_timestamp_stable (t : Z) actions :
  filter (fun x => timestamp x = t) (sorted_by_timestamp actions)
  = filter (fun x => timestamp x = t) actions.
Proof.
  induction actions as [|e l IH]; simpl; [done|].
  rewrite insert_by_timestamp_stable, !filter_cons, IH. done.
Qed.

Lemma block_step_other st (e : ActionEvent) (a : string) :
  ip e <> a ->
  recorded (block_step st e) a = recorded st a
  /\ pending_of (block_step st e) a = pending_of st a.
Proof.
  intros Hne. unfold recorded, pending_of, block_step.
  destruct (is_ban e); [|destruct (is_unban e)]; simpl.
  - by rewrite lookup_insert_ne.
  - destruct (default [] (bans st !! ip e)); simpl; by rewrite !lookup_insert_ne.
  - done.
Qed.

Lemma block_step_ban st (e : ActionEvent) :
  is_ban e = true ->
  recorded (block_step st e) (ip e) = recorded st (ip e)
  /\ pending_of (block_step st e) (ip e) = pending_of st (ip e) ++ [timestamp e].
Proof.
  intros Hb. unfold recorded, pending_of, block_step. rewrite Hb. simpl.
  by rewrite lookup_insert_eq.
Qed.

Lemma block_step_unban st (e : ActionEvent) (start : Z) (rest : list Z) :
  is_ban e = false -> is_unban e = true ->
  pending_of st (ip e) = start :: rest ->
  recorded (block_step st e) (ip e)
  = recorded st (ip e) ++ [total_seconds (timestamp e - start)]
  /\ pending_of (block_step st e) (ip e) = rest.
Proof.
  unfold recorded, pending_of, block_step. intros -> -> ->. simpl.
  by rewrite !lookup_insert_eq.
Qed.

Lemma block_step_unmatched st (e : ActionEvent) :
  is_ban e = false -> is_unban e = true ->
  pending_of st (ip e) = [] ->
  durations (block_step st e) = durations st
  /\ pending_of (block_step st e) (ip e) = [].
Proof.
  unfold pending_of, block_step. intros -> -> ->. simpl.
  by rewrite lookup_insert_eq.
Qed.

Lemma block_step_ignored st (e : ActionEvent) :
  is_ban e = false -> is_unban e = false -> block_step st e = st.
Proof. unfold block_step. by intros -> ->. Qed.

(** The loop refines the pairing rule, address by address. *)
Lemma block_loop_refines events st (a : string) :
  recorded (foldl block_step st events) a
  = recorded st a
    ++ spec_fifo_durations (pending_of st a) (filter (fun e => ip e = a) events).
Proof.
  revert st. induction events as [|e l IH]; intros st; simpl.
  - by rewrite app_nil_r.
  - rewrite IH, filter_cons. destruct (decide (ip e = a)) as [<-|Hne].
    + simpl. destruct (is_ban e) eqn:Hb; [|destruct (is_unban e) eqn:Hu].
      * by destruct (block_step_ban st e Hb) as [-> ->].
      * destruct (pending_of st (ip e)) as [|start rest] eqn:Hp.
        -- destruct (block_step_unmatched st e Hb Hu Hp) as [Hd ->].
           unfold recorded. by rewrite Hd.
        -- destruct (block_step_unban st e start rest Hb Hu Hp) as [-> ->].
           by rewrite <- app_assoc.
      * by rewrite block_step_ignored.
    + by destruct (block_step_other st e a Hne) as [-> ->].
Qed.

Lemma total_seconds_nonneg (micro : Z) : 0 <= micro -> (0 <= total_seconds micro)%Q.
Proof.
  intros H. unfold total_seconds. rewrite Qred_correct.
  unfold Qle. simpl. lia.
Qed.

Lemma block_step_pending st (e : ActionEvent) (a : string) (t : Z) :
  t ∈ pending_of (block_step st e) a -> t ∈ pending_of st a \/ t = timestamp e.
Proof.
  destruct (decide (ip e = a)) as [<-|Hne].
  - destruct (is_ban e) eqn:Hb; [|destruct (is_unban e) eqn:Hu].
    + destruct (block_step_ban st e Hb) as [_ ->].
      rewrite elem_of_app, list_elem_of_singleton. tauto.
    + destruct (pending_of st (ip e)) as [|start rest] eqn:Hp.
      * destruct (block_step_unmatched st e Hb Hu Hp) as [_ ->]. tauto.
      * destruct (block_step_unban st e start rest Hb Hu Hp) as [_ ->].
        rewrite elem_of_cons. tauto.
    + rewrite block_step_ignored by done. tauto.
  - destruct (block_step_other st e a Hne) as [_ ->]. tauto.
Qed.

Lemma block_step_nonneg st (e : ActionEvent) :
  (forall t, t ∈ pending_of st (ip e) -> t <= timestamp e) ->
  durations_nonneg st -> durations_nonneg (block_step st e).
Proof.
  intros Hpend Hst a. destruct (decide (ip e = a)) as [<-|Hne].
  - destruct (is_ban e) eqn:Hb; [|destruct (is_unban e) eqn:Hu].
    + destruct (block_step_ban st e Hb) as [-> _]. apply Hst.
    + destruct (pending_of st (ip e)) as [|start rest] eqn:Hp.
      * destruct (block_step_unmatched st e Hb Hu Hp) as [Hd _].
        unfold recorded. rewrite Hd. apply Hst.
      * destruct (block_step_unban st e start rest Hb Hu Hp) as [-> _].
        apply Forall_app. split; [apply Hst|].
        constructor; [|constructor]. apply total_seconds_nonneg.
        specialize (Hpend start). rewrite elem_of_cons in Hpend.
        assert (start <= timestamp e) by (apply Hpend; by left). lia.
    + rewrite block_step_ignored by done. apply Hst.
  - destruct (block_step_other st e a Hne) as [-> _]. apply Hst.
Qed.

Lemma block_loop_nonneg events st :
  StronglySorted by_timestamp events ->
  pending_before st events ->
  durations_nonneg st ->
  durations_nonneg (foldl block_step st events).
Proof.
  intros Hsorted. revert st.
  induction Hsorted as [|e l Hl IH He]; intros st Hpend Hst; simpl; [done|].
  apply IH.
  - intros a t e' Ht He'.
    destruct (block_step_pending st e a t Ht) as [Hold | ->].
    + apply (Hpend a); [done|]. by apply elem_of_cons; right.
    + rewrite Forall_forall in He. by apply He.
  - apply block_step_nonneg; [|done].
    intros t Ht. apply (Hpend (ip e)); [done|]. by apply elem_of_cons; left.
Qed.

(** C4. [compute_block_durations] goes through the actions in ascending
    order of time stamp (a stable sort of the input), and what it records
    for an address is what the pending-ban queue of the specification
    gives on that address's events: a ban is pushed, an unban pops the
    oldest pending ban and records the time since it, an unban with no
    pending ban records nothing and raises nothing. On ban(A,0), ban(A,10),
    unban(A,20) it records the one duration 20 for A. *)
Theorem block_durations_fifo actions :
  let ordered := sorted_by_timestamp actions in
  ordered ≡ₚ actions
  /\ StronglySorted by_timestamp ordered
  /\ (forall t : Z,
        filter (fun e => timestamp e = t) ordered
        = filter (fun e => timestamp e = t) actions)
  /\ (forall a : string,
        default [] (compute_block_durations actions !! a)
        = spec_fifo_durations [] (filter (fun e => ip e = a) ordered))
  /\ (forall st (e : ActionEvent),
        is_ban e = false -> is_unban e = true ->
        default [] (bans st !! ip e) = [] ->
        durations (block_step st e) = durations st)
  /\ (let event t kind := {| timestamp := t * 1000000; ip := "A"; action := kind;
                             jail := "ssh-proxmox"; reason := None |} in
      compute_block_durations [event 0 "ban"; event 10 "ban"; event 20 "unban"]
      = {[ "A" := [20%Q] ]}).
Proof.
  intros ordered.
  split; [apply sorted_by_timestamp_perm|].
  split; [apply sorted_by_timestamp_sorted|].
  split; [intros t; apply sorted_by_timestamp_stable|].
  split; [|split].
  - intros a. unfold compute_block_durations.
    exact (block_loop_refines ordered {| bans := ∅; durations := ∅ |} a).
  - intros st e Hb Hu Hp. by destruct (block_step_unmatched st e Hb Hu Hp).
  - by vm_compute.
Qed.

(** An unban of an address with no ban before it: nothing is recorded. *)
Lemma block_durations_fifo_witness :
  let unban := {| timestamp := 5000000; ip := "A"; action := "unban";
                  jail := "ssh-proxmox"; reason := None |} in
  durations (block_step {| bans := ∅; durations := ∅ |} unban) = ∅
  /\ default [] (compute_block_durations [unban] !! "A") = [].
Proof.
  intros unban.
  destruct (block_durations_fifo [unban]) as (_ & _ & _ & Hfifo & Hunmatched & _).
  split.
  - apply (Hunmatched {| bans := ∅; durations := ∅ |} unban); reflexivity.
  - rewrite (Hfifo "A"). reflexivity.
Defined.

(** C10. No recorded block duration is negative: the actions are processed
    in ascending order of time stamp, so an unban is never earlier than the
    pending ban it closes. *)
Theorem block_durations_nonnegative actions (a : string) :
  Forall (fun d => (0 <= d)%Q) (default [] (compute_block_durations actions !! a)).
Proof.
  unfold compute_block_durations.
  apply (block_loop_nonneg (sorted_by_timestamp actions)
           {| bans := ∅; durations := ∅ |}).
  - apply sorted_by_timestamp_sorted.
  - intros a' t e Ht _. unfold pending_of in Ht. simpl in Ht.
    rewrite lookup_empty in Ht. by apply elem_of_nil in Ht.
  - intros a'. unfold recorded. simpl. rewrite lookup_empty. constructor.
Qed.

End BlockDurations.

(** ** Detection latency *)

Section Detection.

Import Collect.

Implicit Types (actions : list ActionEvent) (truth : list TruthRow).

Lemma first_ban_loop actions (first_ban : gmap string Z) (a : string) :
  foldl first_ban_step first_ban actions !! a
  = match first_ban !! a with
    | Some t => Some t
    | None =>
        timestamp <$> head (filter (fun e => is_ban e = true /\ ip e = a) actions)
    end.
Proof.
  revert first_ban. induction actions as [|e l IH]; intros first_ban; simpl.
  - by destruct (first_ban !! a).
  - rewrite IH, filter_cons. unfold first_ban_step.
    destruct (is_ban e) eqn:Hb.
    + destruct (decide (ip e = a)) as [<-|Hne].
      * destruct (first_ban !! ip e) eqn:Hf; [by rewrite Hf|].
        rewrite lookup_insert_eq.
        by destruct (decide (true = true /\ ip e = ip e)) as [_|[]].
      * destruct (decide (true = true /\ ip e = a)) as [[_ ?]|_]; [done|].
        destruct (first_ban !! ip e); [done|]. by rewrite lookup_insert_ne.
    + by destruct (decide (false = true /\ ip e = a)) as [[? _]|_].
Qed.

(** The ban [compute_detection_times] keeps for an address is the first
    one in the order of the input. *)
Lemma first_bans_lookup actions (a : string) :
  first_bans actions !! a
  = timestamp <$> head (filter (fun e => is_ban e = true /\ ip e = a) actions).
Proof. unfold first_bans. by rewrite first_ban_loop, lookup_empty. Qed.

(** The latency reported for an address: from its last row of the table to
    its first listed ban; none when it has no ban or no row. *)
Lemma compute_detection_times_lookup actions truth (a : string) :
  compute_detection_times actions truth !! a
  = match first_bans actions !! a, last (filter (fun row => src_ip row = a) truth) with
    | Some t, Some row => Some (total_seconds (t - first_ts_parsed row))
    | _, _ => None
    end.
Proof.
  unfold compute_detection_times.
  induction truth as [|row truth IH] using rev_ind; simpl.
  - rewrite lookup_empty. by destruct (first_bans actions !! a).
  - rewrite foldl_app, filter_app, filter_cons, filter_nil. simpl.
    unfold detection_step at 1.
    destruct (decide (src_ip row = a)) as [<-|Hne].
    + rewrite last_snoc.
      destruct (first_bans actions !! src_ip row); [|by rewrite IH].
      by rewrite lookup_insert_eq.
    + rewrite app_nil_r.
      destruct (first_bans actions !! src_ip row); [|done].
      by rewrite lookup_insert_ne.
Qed.

(** C1, at an input whose bans are not listed in order of time: address A
    is banned at 10 s and, listed after it, at 5 s, and its attack starts
    at 0 s. The latency reported is 10 s, from the ban listed first, and
    not the 5 s of the earliest ban; with the two bans listed the other
    way round it is 5 s. *)
Theorem detection_latency_follows_input_order :
  let ban t := {| timestamp := t * 1000000; ip := "A"; action := "ban";
                  jail := "ssh-proxmox"; reason := None |} in
  let truth := [{| src_ip := "A"; label_norm := "malicious"; first_ts_parsed := 0 |}] in
  compute_detection_times [ban 10; ban 5] truth !! "A" = Some 10%Q
  /\ detection_by_ip (compute_metrics [ban 10; ban 5] truth) !! "A" = Some 10%Q
  /\ compute_detection_times [ban 5; ban 10] truth !! "A" = Some 5%Q
  /\ timestamp <$> head (sorted_by_timestamp [ban 10; ban 5]) = Some 5000000.
Proof. by vm_compute. Qed.

End Detection.

(** ** Repeatability over the run history *)

Section History.

Import Collect.

Implicit Types (history : list RunEntry).

Lemma stdev_two_or_more (data : list Q) :
  (2 <= length data)%nat -> stdev data = Ok (sqrt (Q2R (variance data))).
Proof.
  intros H. unfold stdev.
  destruct (Nat.ltb_spec (length data) 2) as [Hlt|_]; [lia | done].
Qed.

Lemma stdev_one (x : Q) : stdev [x] = Raise StatisticsError.
Proof. reflexivity. Qed.

Lemma stdev_if_any_two_or_more (data : list Q) :
  (2 <= length data)%nat ->
  stdev_if_any data = Ok (Some (sqrt (Q2R (variance data)))).
Proof.
  intros H. unfold stdev_if_any. rewrite (stdev_two_or_more data H).
  destruct data; [simpl in H; lia | done].
Qed.

(** What [update_history] answers once the history has two entries or
    more, by the number of entries with a detection latency. *)
Lemma update_history_repeatability (stored : option (list RunEntry)) (run_entry : RunEntry) :
  let history := default [] stored ++ [run_entry] in
  let deviation data := sqrt (Q2R (variance data)) in
  (2 <= length history)%nat ->
  fst (update_history stored run_entry) = history
  /\ (detection_vals history = [] ->
      snd (update_history stored run_entry)
      = Ok {| detection_seconds_std := None;
              accuracy_std := Some (deviation (accuracy_vals history)) |})
  /\ ((2 <= length (detection_vals history))%nat ->
      snd (update_history stored run_entry)
      = Ok {| detection_seconds_std := Some (deviation (detection_vals history));
              accuracy_std := Some (deviation (accuracy_vals history)) |})
  /\ (length (detection_vals history) = 1%nat ->
      snd (update_history stored run_entry) = Raise StatisticsError).
Proof.
  intros history deviation Hlen.
  assert (Hge : (2 <=? length history)%nat = true) by by apply Nat.leb_le.
  unfold update_history. cbn [fst snd]. fold history. rewrite Hge.
  assert (Hacc : stdev_if_any (accuracy_vals history)
                 = Ok (Some (deviation (accuracy_vals history)))).
  { apply stdev_if_any_two_or_more. unfold accuracy_vals.
    by rewrite length_fmap. }
  split; [done|]. split; [|split].
  - intros ->. simpl. by rewrite Hacc.
  - intros H2. rewrite (stdev_if_any_two_or_more _ H2). simpl. by rewrite Hacc.
  - intros H1. destruct (detection_vals history) as [|x [|y l]]; try done.
Qed.

(** C2, at a history of two entries of which one has a detection latency:
    [statistics.stdev] is called on the single average and raises, so the
    call returns no repeatability at all, where the specification has
    the statistic left out. The history has been written by then. *)
Theorem repeatability_single_latency_raises :
  let summary n a :=
    {| count := n; avg := a; median := a; minimum := a; maximum := a |} in
  let entry name n a acc :=
    {| run_id := name; notes := "";
       metrics :=
         {| counts := {| count_malicious_ips := 1; count_benign_ips := 0;
                         count_unknown_ips := 0; count_banned_ips := n |};
            metrics_tpr := acc; metrics_fpr := 0; accuracy := acc;
            detection_seconds := summary n a;
            blocking_seconds := summary 0%nat 0%Q;
            detection_by_ip := ∅; blocking_by_ip := ∅ |} |} in
  let first := entry "run-1" 0%nat 0%Q 0%Q in
  let second := entry "run-2" 1%nat 3%Q 1%Q in
  detection_vals [first; second] = [3%Q]
  /\ update_history (Some [first]) second
     = ([first; second], Raise StatisticsError).
Proof. split; reflexivity. Qed.

End History.

(** ** Year resolution of syslog time stamps *)

Section Timestamps.

Import Replay.

Ltac split_andb :=
  repeat match goal with
         | H : _ && _ = true |- _ => apply andb_prop in H as [? ?]
         | |- _ && _ = true => apply andb_true_intro; split
         end.

Lemma checked_ok (d r : datetime) : checked d = Ok r -> r = d /\ valid d = true.
Proof. unfold checked. destruct (valid d); [|done]. by intros [= <-]. Qed.

Lemma construct_ok (d r : datetime) : construct d = Ok r -> r = d /\ valid d = true.
Proof.
  unfold construct. destruct (forallb fits_int (fields d)); [|done]. apply checked_ok.
Qed.

Lemma days_in_month_bounds (y m : Z) : 28 <= days_in_month y m <= 31.
Proof.
  unfold days_in_month.
  destruct (m =? 2); [destruct (is_leap y); lia|].
  destruct ((m =? 4) || (m =? 6) || (m =? 9) || (m =? 11)); lia.
Qed.

Lemma fits_int_spec (n : Z) : fits_int n = true <-> - 2 ^ 31 <= n < 2 ^ 31.
Proof. unfold fits_int. rewrite andb_true_iff, Z.leb_le, Z.ltb_lt. done. Qed.

(** The fields of a date that exists, and of one moved to a year a C [int]
    holds, fit the constructor's arguments. *)
Lemma fits_with_year (d : datetime) (y : Z) :
  valid d = true -> fits_int y = true ->
  forallb fits_int (fields (with_year d y)) = true.
Proof.
  unfold valid. intros H Hy. split_andb.
  pose proof (days_in_month_bounds (year d) (month d)).
  unfold fields. cbn [forallb with_year year month day hour minute second microsecond].
  rewrite Hy. cbn [andb].
  rewrite !andb_true_iff, !fits_int_spec. repeat split; try done; lia.
Qed.

Lemma with_year_same (d : datetime) : with_year d (year d) = d.
Proof. by destruct d. Qed.

Lemma valid_year (d : datetime) : valid d = true -> 1 <= year d <= 9999.
Proof. unfold valid. intros H. split_andb. lia. Qed.

Lemma construct_valid (d : datetime) : valid d = true -> construct d = Ok d.
Proof.
  intros H. unfold construct, checked. rewrite H.
  rewrite <- (with_year_same d), fits_with_year; [done|done|].
  apply fits_int_spec. apply valid_year in H. lia.
Qed.

Lemma construct_invalid (d : datetime) :
  forallb fits_int (fields d) = true -> valid d = false ->
  construct d = Raise ValueError.
Proof. intros Hf Hv. unfold construct, checked. by rewrite Hf, Hv. Qed.

Lemma candidate_of_ok (line : string) (current_year m : Z) (candidate : datetime) :
  candidate_of line current_year m = Ok candidate ->
  valid candidate = true /\ year candidate = current_year /\ month candidate = m.
Proof.
  unfold candidate_of.
  destruct (PyStr.int (PyStr.slice 4 6 line)) as [d|]; simpl; [|done].
  destruct (strptime_hms (PyStr.slice 7 15 line)) as [[[h mi] sec]|]; simpl; [|done].
  by intros [-> Hv]%construct_ok.
Qed.

Lemma lt_year (a b : datetime) : lt a b = true -> year a <= year b.
Proof.
  unfold lt, fields. simpl. intros H.
  apply orb_prop in H as [H|H]; [lia|].
  apply andb_prop in H as [H _]. lia.
Qed.

(** Moving a valid date to another year keeps it valid when the year is in
    range and the month is as long there. *)
Lemma valid_with_year (d : datetime) (y : Z) :
  valid d = true -> 1 <= y <= 9999 ->
  day d <= days_in_month y (month d) ->
  valid (with_year d y) = true.
Proof.
  unfold valid. simpl. intros H Hy Hd. split_andb; try done; lia.
Qed.

(** A date moved to a year in range exists there unless it is 29 February
    and the year is not a leap year. *)
Lemma valid_with_year_iff (d : datetime) (y : Z) :
  valid d = true -> 1 <= y <= 9999 ->
  valid (with_year d y) = negb (leap_day d && negb (is_leap y)).
Proof.
  intros Hv Hy.
  destruct (leap_day d && negb (is_leap y)) eqn:Hleap; simpl.
  - apply andb_prop in Hleap as [Hday Hyear]. unfold leap_day in Hday.
    apply andb_prop in Hday as [Hm Hd].
    apply negb_true_iff in Hyear.
    destruct (valid (with_year d y)) eqn:Hw; [|done].
    unfold valid in Hw. simpl in Hw. split_andb.
    unfold days_in_month in *. rewrite Hm, Hyear in *. lia.
  - apply valid_with_year; [done|done|].
    assert (Hd : day d <= days_in_month (year d) (month d))
      by (unfold valid in Hv; split_andb; lia).
    unfold leap_day in Hleap. unfold days_in_month in *.
    destruct (month d =? 2); [|done].
    destruct (is_leap y); [destruct (is_leap (year d)); lia|].
    destruct (Z.eqb_spec (day d) 29) as [|Hne]; [done|].
    destruct (is_leap (year d)); lia.
Qed.

Lemma rollover_dec (candidate previous : datetime) :
  lt candidate previous && (month candidate =? 1) && (month previous =? 12) = true
  <-> rollover candidate previous.
Proof.
  unfold rollover. rewrite !andb_true_iff, !Z.eqb_eq. tauto.
Qed.

Lemma digit_val_bounds (c : ascii) (d : Z) : PyStr.digit_val c = Some d -> 0 <= d <= 9.
Proof.
  unfold PyStr.digit_val.
  destruct ((48 <=? N_of_ascii c) && (N_of_ascii c <=? 57))%N eqn:H; [|done].
  intros [= <-]. apply andb_prop in H as [H1 H2].
  apply N.leb_le in H1, H2. lia.
Qed.

(** A run of digits is a number of as many digits at most. *)
Lemma digits_bound (s : string) (acc : Z) (b : bool) (v : Z) :
  0 <= acc -> PyStr.digits acc b s = Some v ->
  0 <= v < (acc + 1) * 10 ^ Z.of_nat (String.length s).
Proof.
  revert acc b. induction s as [|c s IH]; intros acc b Hacc.
  - simpl. destruct b; [|done]. intros [= <-]. lia.
  - assert (Hp : 0 < 10 ^ Z.of_nat (String.length s)) by (apply Z.pow_pos_nonneg; lia).
    assert (Hs : 10 ^ Z.of_nat (String.length (String c s))
                 = 10 * 10 ^ Z.of_nat (String.length s)).
    { cbn [String.length]. rewrite Nat2Z.inj_succ, Z.pow_succ_r; lia. }
    rewrite Hs. cbn [PyStr.digits].
    destruct (PyStr.digit_val c) as [d|] eqn:Hd.
    + apply digit_val_bounds in Hd. intros H. apply IH in H; [|lia]. nia.
    + destruct (b && Ascii.eqb c "_"); [|done]. intros H. apply IH in H; [|done]. nia.
Qed.

Lemma unsigned_small (t : string) (v : Z) :
  (String.length t <= 2)%nat -> PyStr.unsigned t = Ok v -> 0 <= v < 100.
Proof.
  intros Hlen. unfold PyStr.unsigned.
  destruct (PyStr.digits 0 false t) as [w|] eqn:Hw; [|done]. intros [= <-].
  apply digits_bound in Hw; [|done].
  assert (10 ^ Z.of_nat (String.length t) <= 10 ^ 2) by (apply Z.pow_le_mono_r; lia).
  lia.
Qed.

Lemma length_rev_app (s1 s2 : string) :
  String.length (String.rev_app s1 s2) = (String.length s1 + String.length s2)%nat.
Proof.
  revert s2. induction s1 as [|c s1 IH]; intros s2; simpl; [done|].
  rewrite IH. simpl. lia.
Qed.

Lemma length_int_lstrip (s : string) :
  (String.length (PyStr.int_lstrip s) <= String.length s)%nat.
Proof.
  induction s as [|c s IH]; simpl; [done|].
  destruct (PyStr.is_int_space c); simpl; lia.
Qed.

Lemma length_int_strip (s : string) :
  (String.length (PyStr.int_strip s) <= String.length s)%nat.
Proof.
  unfold PyStr.int_strip, String.rev. rewrite length_rev_app. simpl.
  pose proof (length_int_lstrip (String.rev_app (PyStr.int_lstrip s) "")) as H.
  rewrite length_rev_app in H. simpl in H.
  pose proof (length_int_lstrip s). unfold String.rev in *. lia.
Qed.

Lemma length_substring (n m : nat) (s : string) :
  (String.length (String.substring n m s) <= m)%nat.
Proof.
  revert n m. induction s as [|c s IH]; intros [|n] [|m]; simpl; try lia.
  - specialize (IH 0%nat m). lia.
  - apply IH.
  - apply IH.
Qed.

(** The day field is two characters: the number [int] reads from it has
    two digits at most. *)
Lemma int_small (s : string) (v : Z) :
  (String.length s <= 2)%nat -> PyStr.int s = Ok v -> -100 < v < 100.
Proof.
  intros Hlen. unfold PyStr.int. pose proof (length_int_strip s) as Hstrip.
  destruct (PyStr.int_strip s) as [|c t].
  - intros H%unsigned_small; simpl; lia.
  - simpl in Hstrip. destruct (Ascii.eqb c "+").
    + intros H%unsigned_small; lia.
    + destruct (Ascii.eqb c "-").
      * destruct (PyStr.unsigned t) as [w|] eqn:Hw; simpl; [|done].
        intros [= <-]. apply unsigned_small in Hw; lia.
      * intros H%unsigned_small; simpl; lia.
Qed.

Lemma unsigned_raises (t : string) (e : exn) :
  PyStr.unsigned t = Raise e -> e = ValueError.
Proof. unfold PyStr.unsigned. destruct (PyStr.digits 0 false t); congruence. Qed.

Lemma int_raises (s : string) (e : exn) : PyStr.int s = Raise e -> e = ValueError.
Proof.
  unfold PyStr.int. destruct (PyStr.int_strip s) as [|c t].
  - apply unsigned_raises.
  - destruct (Ascii.eqb c "+"); [apply unsigned_raises|].
    destruct (Ascii.eqb c "-"); [|apply unsigned_raises].
    destruct (PyStr.unsigned t) as [w|e'] eqn:Hw; simpl; [done|].
    intros [= <-]. by apply unsigned_raises in Hw.
Qed.

Lemma field_bounds (limit : Z) (s : string) (v : Z) :
  9 <= limit -> field limit s = Some v -> 0 <= v <= limit.
Proof.
  intros Hl. unfold field. destruct s as [|a [|b [|]]]; try done.
  - intros H%digit_val_bounds. lia.
  - destruct (PyStr.digit_val a) as [x|] eqn:Ha; [|done].
    destruct (PyStr.digit_val b) as [y|] eqn:Hb; [|done].
    apply digit_val_bounds in Ha, Hb.
    destruct (Z.leb_spec (10 * x + y) limit); [|done]. intros [= <-]. lia.
Qed.

Lemma strptime_hms_ok (s : string) (h mi sec : Z) :
  strptime_hms s = Ok (h, mi, sec) ->
  0 <= h <= 23 /\ 0 <= mi <= 59 /\ 0 <= sec <= 59.
Proof.
  unfold strptime_hms.
  destruct (PyStr.split ":" s) as [|fh [|fm [|fs [|]]]]; try done.
  destruct (field 23 fh) eqn:Hh, (field 59 fm) eqn:Hm, (field 59 fs) eqn:Hs; try done.
  intros [= <- <- <-].
  apply field_bounds in Hh, Hm, Hs; lia.
Qed.

Lemma strptime_hms_raises (s : string) (e : exn) :
  strptime_hms s = Raise e -> e = ValueError.
Proof.
  unfold strptime_hms.
  destruct (PyStr.split ":" s) as [|h [|mi [|sec [|]]]]; try congruence.
  destruct (field 23 h), (field 59 mi), (field 59 sec); congruence.
Qed.

Lemma checked_raises (d : datetime) (e : exn) : checked d = Raise e -> e = ValueError.
Proof. unfold checked. destruct (valid d); congruence. Qed.

Lemma SYSLOG_MONTHS_range (name : string) (m : Z) :
  SYSLOG_MONTHS !! name = Some m -> 1 <= m <= 12.
Proof.
  unfold SYSLOG_MONTHS. intros H%elem_of_list_to_map_2.
  rewrite !elem_of_cons, elem_of_nil in H.
  repeat (destruct H as [[= _ ->]|H]; [lia|]). done.
Qed.

(** Building the candidate raises [ValueError], or [OverflowError] when the
    year hint does not fit a C [int]. *)
Lemma candidate_of_raises (line : string) (y m : Z) (e : exn) :
  1 <= m <= 12 ->
  candidate_of line y m = Raise e ->
  e = ValueError \/ (e = OverflowError /\ fits_int y = false).
Proof.
  intros Hm. unfold candidate_of.
  destruct (PyStr.int (PyStr.slice 4 6 line)) as [d|e'] eqn:Hd; simpl.
  - destruct (strptime_hms (PyStr.slice 7 15 line)) as [[[h mi] sec]|e'] eqn:Hs; simpl.
    + apply int_small in Hd; [|apply length_substring].
      apply strptime_hms_ok in Hs.
      assert (Hfit : forall n, -100 < n < 100 -> fits_int n = true)
        by (intros n Hn; apply fits_int_spec; lia).
      unfold construct, fields. simpl.
      rewrite (Hfit m), (Hfit d), (Hfit h), (Hfit mi), (Hfit sec) by lia.
      rewrite !andb_true_r.
      destruct (fits_int y).
      * intros He%checked_raises. by left.
      * intros [= <-]. by right.
    + intros [= <-]. left. by apply strptime_hms_raises in Hs.
  - intros [= <-]. left. by apply int_raises in Hd.
Qed.

(** C5, as the code has it. With a recognised month, a candidate that is
    built and a previous time stamp (a [datetime], so a date that
    exists): when the candidate is before the
    previous time stamp, in January, and the previous one is in December,
    the result is the candidate in the year [previous.year + 1], unless
    that year is 10000, which no [datetime] has: then the call raises
    [ValueError]. Otherwise, when the candidate's year is less than the
    year of the previous time stamp, the result is the candidate in that
    year, unless the candidate is 29 February and that year is not a leap
    year: then [datetime.replace] raises [ValueError]. Otherwise the
    candidate is returned as it is. An unrecognised month raises
    [ValueError], and so does a day or a time that does not parse or is not
    a date of the year of the hint; a hint that does not fit a C [int]
    raises [OverflowError]. *)
Theorem parse_syslog_timestamp_year (line : string) (current_year : Z)
  (previous : datetime) :
  valid previous = true ->
  let parsed := parse_syslog_timestamp line current_year (Some previous) in
  (SYSLOG_MONTHS !! PyStr.slice 0 3 line = None -> parsed = Raise ValueError)
  /\ (forall (m : Z) (e : exn),
        SYSLOG_MONTHS !! PyStr.slice 0 3 line = Some m ->
        candidate_of line current_year m = Raise e ->
        parsed = Raise e
        /\ (e = ValueError \/ (e = OverflowError /\ fits_int current_year = false)))
  /\ (forall (m : Z) (candidate : datetime),
        SYSLOG_MONTHS !! PyStr.slice 0 3 line = Some m ->
        candidate_of line current_year m = Ok candidate ->
        year candidate = current_year /\ month candidate = m
        /\ (rollover candidate previous ->
            if year previous <? 9999
            then parsed = Ok (with_year candidate (year previous + 1))
            else parsed = Raise ValueError)
        /\ (~ rollover candidate previous -> year candidate < year previous ->
            if leap_day candidate && negb (is_leap (year previous))
            then parsed = Raise ValueError
            else parsed = Ok (with_year candidate (year previous)))
        /\ (~ rollover candidate previous -> year previous <= year candidate ->
            parsed = Ok candidate)).
Proof.
  intros Hprev parsed. subst parsed. unfold parse_syslog_timestamp.
  split; [|split].
  - by intros ->.
  - intros m e Hm Hc. rewrite Hm, Hc. split; [done|].
    apply SYSLOG_MONTHS_range in Hm. by apply candidate_of_raises in Hc.
  - intros m candidate -> Hc. simpl. rewrite Hc. simpl.
    destruct (candidate_of_ok _ _ _ _ Hc) as (Hvalid & Hyear & Hmonth).
    pose proof (valid_year _ Hprev) as Hrange.
    pose proof (valid_year _ Hvalid) as Hrange'.
    split; [done|]. split; [done|].
    assert (Hdec := rollover_dec candidate previous). rewrite Hmonth in Hdec.
    destruct (lt candidate previous && (m =? 1) && (month previous =? 12)) eqn:Hr.
    + assert (Hroll : rollover candidate previous) by by apply Hdec.
      split; [|split]; [|tauto|tauto]. intros _. unfold replace_year.
      destruct (Z.ltb_spec (year previous) 9999) as [Hlt|Hge].
      * apply construct_valid. rewrite valid_with_year_iff; [|done|lia].
        destruct Hroll as (_ & Hjan & _). unfold leap_day. by rewrite Hjan.
      * apply construct_invalid.
        -- apply fits_with_year; [done|]. apply fits_int_spec. lia.
        -- destruct (valid (with_year candidate (year previous + 1))) eqn:Hw; [|done].
           apply valid_year in Hw. simpl in Hw. lia.
    + assert (Hno : ~ rollover candidate previous)
        by (intros Hroll; apply Hdec in Hroll; congruence).
      split; [tauto|].
      destruct (Z.ltb_spec (year candidate) (year previous)) as [Hlt|Hge].
      * split; [|intros _ ?; lia]. intros _ _. unfold replace_year.
        pose proof (valid_with_year_iff candidate (year previous) Hvalid Hrange) as Hw.
        destruct (leap_day candidate && negb (is_leap (year previous))); simpl in Hw.
        -- apply construct_invalid; [|done].
           apply fits_with_year; [done|]. apply fits_int_spec. lia.
        -- by apply construct_valid.
      * split; [intros _ ?; lia | done].
Qed.

(** The turn of the year of the specification: after a line of 31 December
    2024, a line of 1 January read with the year 2024 resolves to 2025. *)
Lemma parse_syslog_timestamp_year_witness :
  parse_syslog_timestamp "Jan 01 00:00:01 host sshd[1]: x" 2024
    (Some {| year := 2024; month := 12; day := 31; hour := 23; minute := 59;
             second := 59; microsecond := 0 |})
  = Ok {| year := 2025; month := 1; day := 1; hour := 0; minute := 0;
          second := 1; microsecond := 0 |}.
Proof.
  pose proof (parse_syslog_timestamp_year "Jan 01 00:00:01 host sshd[1]: x" 2024
    {| year := 2024; month := 12; day := 31; hour := 23; minute := 59;
       second := 59; microsecond := 0 |} eq_refl) as (_ & _ & H).
  specialize (H 1 {| year := 2024; month := 1; day := 1; hour := 0; minute := 0;
                     second := 1; microsecond := 0 |}).
  destruct H as (_ & _ & H & _); [by vm_compute | by vm_compute |].
  apply H. by vm_compute.
Defined.

(** C5 as stated fails on a leap day: with the month recognised, the
    candidate of 29 February 2024 built, no turn of the year and a previous
    time stamp of 2025, the result should have the year 2025; there is no
    29 February 2025, and [datetime.replace] raises [ValueError]. *)
Lemma parse_syslog_timestamp_leap_day :
  let line := "Feb 29 12:00:00 host sshd[1]: x" in
  let previous := {| year := 2025; month := 1; day := 5; hour := 0; minute := 0;
                     second := 0; microsecond := 0 |} in
  let candidate := {| year := 2024; month := 2; day := 29; hour := 12; minute := 0;
                      second := 0; microsecond := 0 |} in
  valid previous = true
  /\ SYSLOG_MONTHS !! PyStr.slice 0 3 line = Some 2
  /\ candidate_of line 2024 2 = Ok candidate
  /\ ~ rollover candidate previous
  /\ year candidate < year previous
  /\ parse_syslog_timestamp line 2024 (Some previous) = Raise ValueError.
Proof.
  repeat split; try by vm_compute.
  intros (_ & Hjan & _). by vm_compute in Hjan.
Qed.

(** The same at the end of the calendar: the turn of the year after
    31 December 9999 has no year to go to. *)
Example parse_syslog_timestamp_last_year :
  parse_syslog_timestamp "Jan 01 00:00:01 host sshd[1]: x" 9999
    (Some {| year := 9999; month := 12; day := 31; hour := 23; minute := 59;
             second := 59; microsecond := 0 |})
  = Raise ValueError.
Proof. reflexivity. Qed.

(** A day field behind one of the separators [str.strip] removes is not a
    number for [int]: the line does not parse. *)
Example parse_syslog_timestamp_separator :
  parse_syslog_timestamp
    ("Jan " +:+ String "031" "5 00:00:01 host sshd[1]: x") 2024 None
  = Raise ValueError.
Proof. reflexivity. Qed.

(** A year hint that does not fit a C [int] raises [OverflowError]. *)
Example parse_syslog_timestamp_overflow :
  parse_syslog_timestamp "Jan 01 00:00:01 host sshd[1]: x" (2 ^ 31) None
  = Raise OverflowError.
Proof. reflexivity. Qed.

End Timestamps.

(** ** Replay pacing *)

Section Pacing.

Import Replay.

Implicit Types (cfg : Config) (st : LoopState) (line : LogLine)
  (lines : list LogLine) (trace : list effect).

Lemma sleeps_app trace trace' : sleeps (trace ++ trace') = sleeps trace ++ sleeps trace'.
Proof. apply omap_app. Qed.

Lemma emissions_app trace trace' :
  emissions (trace ++ trace') = emissions trace ++ emissions trace'.
Proof. apply omap_app. Qed.

(** A turn of the loop that does not fail: it sleeps as [sleep_for] says,
    emits the line once, counts it and records its time stamp. *)
Lemma body_ok cfg st line :
  Qeq_bool (speed_factor cfg) 0 = false ->
  emits_ok cfg line ->
  exists trace,
    body cfg st line
    = (trace,
       Ok ({| emitted := emitted st + 1; last_ts := Some (timestamp line) |},
           if limit_reached cfg (emitted st + 1) then Break else Continue))
    /\ sleeps trace = sleep_for cfg (last_ts st) line
    /\ emissions trace = [emitted_text cfg line].
Proof.
  intros Hspeed Hemit. unfold body, pace, emit_line, sleep_for, emitted_text.
  set (status := negb (status_interval cfg =? 0)
                 && ((emitted st + 1) mod status_interval cfg =? 0)).
  destruct (last_ts st) as [last|]; [rewrite Hspeed|];
    try destruct (Qlt_le_dec 0 (seconds_between (timestamp line) last));
    destruct Hemit as [Hdry|Hcmd];
    try rewrite Hdry; try (destruct (dry_run cfg); [|rewrite Hcmd]);
    destruct status; simpl; eexists; (split; [reflexivity|]); by split.
Qed.

Lemma reached_cons cfg (n : Z) line lines :
  reached cfg n (line :: lines)
  = line :: (if limit_reached cfg (n + 1) then [] else reached cfg (n + 1) lines).
Proof.
  unfold reached, limit_reached. destruct (max_lines cfg) as [limit|]; [|done].
  destruct (Z.eqb_spec limit 0) as [->|Hne]; simpl; [done|].
  destruct (Z.leb_spec limit (n + 1)) as [Hle|Hgt].
  - by replace (Z.max 1 (limit - n)) with 1 by lia.
  - replace (Z.to_nat (Z.max 1 (limit - n)))
      with (S (Z.to_nat (Z.max 1 (limit - (n + 1))))) by lia.
    done.
Qed.

(** The loop on lines whose emission does not fail: it gets to the lines
    [reached] says, sleeps before each as [sleep_for] says with the time
    stamp of the line before, emits each once and counts it. *)
Lemma loop_ok cfg lines st :
  Qeq_bool (speed_factor cfg) 0 = false ->
  Forall (emits_ok cfg) lines ->
  let done := reached cfg (emitted st) lines in
  exists trace st',
    loop cfg st lines = (trace, Ok st')
    /\ emitted st' = emitted st + Z.of_nat (length done)
    /\ sleeps trace = gap_sleeps cfg (last_ts st) done
    /\ emissions trace = emitted_text cfg <$> done.
Proof.
  intros Hspeed Hall. revert st.
  induction Hall as [|line lines Hline Hall IH]; intros st done.
  - exists [], st. subst done. unfold reached.
    destruct (max_lines cfg) as [limit|]; [destruct (limit =? 0)|];
      rewrite ?take_nil; simpl; repeat split; lia.
  - subst done. rewrite reached_cons.
    destruct (body_ok cfg st line Hspeed Hline) as (trace & Hbody & Hsl & Hem).
    cbn [loop]. unfold seq at 1. rewrite Hbody. cbn [fst snd].
    destruct (limit_reached cfg (emitted st + 1)).
    + eexists _, _. split; [reflexivity|]. simpl.
      rewrite app_nil_r, Hsl, Hem. repeat split; try done; try lia.
      by rewrite app_nil_r.
    + specialize (IH {| emitted := emitted st + 1;
                        last_ts := Some (timestamp line) |}).
      destruct IH as (trace' & st' & -> & Hcount & Hsl' & Hem').
      exists (trace ++ trace'), st'. split; [done|].
      rewrite sleeps_app, emissions_app, Hsl, Hem, Hsl', Hem', Hcount.
      simpl. repeat split; try done; lia.
Qed.

Lemma replay_ok cfg lines :
  Qeq_bool (speed_factor cfg) 0 = false ->
  Forall (emits_ok cfg) lines ->
  let done := reached cfg 0 lines in
  exists trace,
    replay cfg lines = (trace ++ [Finished (Z.of_nat (length done))], Ok PyNone)
    /\ sleeps trace = gap_sleeps cfg None done
    /\ emissions trace = emitted_text cfg <$> done.
Proof.
  intros Hspeed Hall done.
  destruct (loop_ok cfg lines {| emitted := 0; last_ts := None |} Hspeed Hall)
    as (trace & st' & Hloop & Hcount & Hsl & Hem).
  exists trace. unfold replay, seq. rewrite Hloop. simpl in *.
  by rewrite Hcount.
Qed.

Lemma length_reached cfg lines :
  length (reached cfg 0 lines)
  = match max_lines cfg with
    | None => length lines
    | Some limit =>
        if limit =? 0 then length lines
        else Nat.min (Z.to_nat (Z.max 1 limit)) (length lines)
    end.
Proof.
  unfold reached. destruct (max_lines cfg) as [limit|]; [|done].
  destruct (limit =? 0); [done|]. by rewrite length_take, Z.sub_0_r.
Qed.

(** With a speed factor above zero and a cap that is not negative, the
    sleep is the capped scaled gap of the specification's sentence. *)
Lemma sleep_is_claimed (delta speed cap : Q) :
  (0 < delta)%Q -> (0 < speed)%Q -> (0 <= cap)%Q ->
  (py_max 0 (py_min (delta / speed) cap) == py_min (delta / speed) cap)%Q.
Proof.
  intros Hd Hs Hc.
  assert (Hscaled : (0 < delta / speed)%Q)
    by (apply Qlt_shift_div_l; [done|]; by rewrite Qmult_0_l).
  assert (Hmin : (0 <= py_min (delta / speed) cap)%Q).
  { unfold py_min. destruct (Qlt_le_dec cap (delta / speed)); [done|].
    by apply Qlt_le_weak. }
  unfold py_max. destruct (Qlt_le_dec 0 (py_min (delta / speed) cap)) as [_|Hle].
  - reflexivity.
  - by apply Qle_antisym.
Qed.

(** C6, as the code has it. While no emission fails, every turn of the loop
    records the line's time stamp as the last one; it does not sleep on the
    first line nor when the gap to the line before is zero or negative, and
    on a positive gap it sleeps once, for the scaled gap capped by
    [sleep_cap] and raised to zero when that is negative (which is the
    capped scaled gap itself when the speed factor is positive and the cap
    is not negative). Over a run the sleeps are those of the consecutive
    lines it gets to. *)
Theorem replay_pacing cfg lines :
  Qeq_bool (speed_factor cfg) 0 = false ->
  Forall (emits_ok cfg) lines ->
  (forall st line,
     emits_ok cfg line ->
     exists trace ctl,
       body cfg st line
       = (trace, Ok ({| emitted := emitted st + 1;
                        last_ts := Some (timestamp line) |}, ctl))
       /\ (last_ts st = None -> sleeps trace = [])
       /\ (forall last, last_ts st = Some last ->
           let delta := seconds_between (timestamp line) last in
           ((delta <= 0)%Q -> sleeps trace = [])
           /\ ((0 < delta)%Q ->
               sleeps trace
               = [py_max 0 (py_min (delta / speed_factor cfg) (sleep_cap cfg))]
               /\ ((0 < speed_factor cfg)%Q -> (0 <= sleep_cap cfg)%Q ->
                   Forall2 Qeq (sleeps trace)
                     [py_min (delta / speed_factor cfg) (sleep_cap cfg)]))))
  /\ sleeps (fst (replay cfg lines)) = gap_sleeps cfg None (reached cfg 0 lines).
Proof.
  intros Hspeed Hall. split.
  - intros st line Hline.
    destruct (body_ok cfg st line Hspeed Hline) as (trace & Hbody & Hsl & _).
    exists trace, (if limit_reached cfg (emitted st + 1) then Break else Continue).
    split; [done|]. rewrite Hsl. unfold sleep_for. split.
    + by intros ->.
    + intros last ->.
      destruct (Qlt_le_dec 0 (seconds_between (timestamp line) last)) as [Hpos|Hneg].
      * split; [intros Hle; by apply Qlt_not_le in Hpos|].
        intros _. split; [done|]. intros Hs Hc.
        constructor; [|constructor]. by apply sleep_is_claimed.
      * split; [done|]. intros Hpos. by apply Qlt_not_le in Hpos.
  - destruct (replay_ok cfg lines Hspeed Hall) as (trace & -> & Hsl & _).
    simpl. by rewrite sleeps_app, Hsl, app_nil_r.
Qed.

(** The example of the specification: two lines 600 seconds apart at a
    speed factor of 600 give one sleep of 600/600 seconds. *)
Lemma replay_pacing_witness :
  let at_minute m := {| year := 2024; month := 12; day := 17; hour := 0;
                        minute := m; second := 0; microsecond := 0 |} in
  let cfg := {| speed_factor := 600; sleep_cap := 5; status_interval := 1000;
                cmd := fun _ => true; dry_run := false; max_lines := None |} in
  sleeps (fst (replay cfg [ {| raw := "first"; timestamp := at_minute 0 |};
                            {| raw := "second"; timestamp := at_minute 10 |} ]))
  = [(600 # 600)%Q].
Proof.
  intros at_minute cfg.
  set (lines := [ {| raw := "first"; timestamp := at_minute 0 |};
                  {| raw := "second"; timestamp := at_minute 10 |} ]).
  assert (Hall : Forall (emits_ok cfg) lines)
    by (repeat constructor; right; reflexivity).
  destruct (replay_pacing cfg lines eq_refl Hall) as [_ Hrun].
  rewrite Hrun. reflexivity.
Defined.

(** The same gap under a cap of half a second gives a sleep of exactly
    half a second. *)
Example replay_pacing_capped :
  let at_minute m := {| year := 2024; month := 12; day := 17; hour := 0;
                        minute := m; second := 0; microsecond := 0 |} in
  let cfg := {| speed_factor := 600; sleep_cap := 1 # 2; status_interval := 1000;
                cmd := fun _ => true; dry_run := false; max_lines := None |} in
  sleeps (fst (replay cfg [ {| raw := "first"; timestamp := at_minute 0 |};
                            {| raw := "second"; timestamp := at_minute 10 |} ]))
  = [(1 # 2)%Q].
Proof. reflexivity. Qed.

(** C6 as stated fails for a negative cap: two lines 10 seconds apart,
    speed factor 1, cap -1. The run sleeps for 0 seconds, where the capped
    scaled gap is -1. *)
Lemma replay_pacing_negative_cap :
  let at_second s := {| year := 2024; month := 12; day := 17; hour := 0;
                        minute := 0; second := s; microsecond := 0 |} in
  let cfg := {| speed_factor := 1; sleep_cap := -1; status_interval := 1000;
                cmd := fun _ => true; dry_run := true; max_lines := None |} in
  let lines := [ {| raw := "first"; timestamp := at_second 0 |};
                 {| raw := "second"; timestamp := at_second 10 |} ] in
  sleeps (fst (replay cfg lines)) = [0%Q]
  /\ claimed_gap_sleeps cfg None lines = [(-1)%Q]
  /\ sleeps (fst (replay cfg lines)) <> claimed_gap_sleeps cfg None lines.
Proof. by vm_compute. Qed.

(** C8, as the code has it. While no emission fails, [replay] returns
    nothing; the last thing it does is report the number of lines it has
    emitted, which are the first [max_lines] lines when that limit is set
    and positive (the first line alone for a negative limit), and all of
    them when it is unset or zero. *)
Theorem replay_reports_emitted_count cfg lines :
  Qeq_bool (speed_factor cfg) 0 = false ->
  Forall (emits_ok cfg) lines ->
  let done := reached cfg 0 lines in
  exists trace,
    replay cfg lines = (trace ++ [Finished (Z.of_nat (length done))], Ok PyNone)
    /\ emissions trace = emitted_text cfg <$> done
    /\ length (emissions trace) = length done
    /\ length done
       = match max_lines cfg with
         | None => length lines
         | Some limit =>
             if limit =? 0 then length lines
             else Nat.min (Z.to_nat (Z.max 1 limit)) (length lines)
         end.
Proof.
  intros Hspeed Hall done.
  destruct (replay_ok cfg lines Hspeed Hall) as (trace & Hrun & _ & Hem).
  exists trace. split; [done|]. split; [done|]. split.
  - by rewrite Hem, length_fmap.
  - apply length_reached.
Qed.

(** Three lines under a limit of two: two lines are emitted and counted,
    and the call returns nothing. *)
Lemma replay_reports_emitted_count_witness :
  let stamp := {| year := 2024; month := 12; day := 17; hour := 0;
                  minute := 0; second := 0; microsecond := 0 |} in
  let cfg := {| speed_factor := 600; sleep_cap := 5; status_interval := 0;
                cmd := fun _ => true; dry_run := true; max_lines := Some 2 |} in
  let lines := [ {| raw := "a"; timestamp := stamp |};
                 {| raw := "b"; timestamp := stamp |};
                 {| raw := "c"; timestamp := stamp |} ] in
  exists trace,
    replay cfg lines = (trace ++ [Finished 2], Ok PyNone)
    /\ emissions trace = ["a"; "b"].
Proof.
  intros stamp cfg lines.
  assert (Hall : Forall (emits_ok cfg) lines)
    by (repeat constructor; left; reflexivity).
  destruct (replay_reports_emitted_count cfg lines eq_refl Hall)
    as (trace & Hrun & Hem & _).
  exists trace. split; [exact Hrun | exact Hem].
Defined.

(** C8 as stated fails: on one line, one line is emitted and reported, and
    what [replay] returns is [None], not the count 1. *)
Lemma replay_returns_none :
  let stamp := {| year := 2024; month := 12; day := 17; hour := 0;
                  minute := 0; second := 0; microsecond := 0 |} in
  let cfg := {| speed_factor := 600; sleep_cap := 5; status_interval := 1000;
                cmd := fun _ => true; dry_run := true; max_lines := None |} in
  let lines := [ {| raw := "a"; timestamp := stamp |} ] in
  replay cfg lines = ([Print "a"; Finished 1], Ok PyNone)
  /\ snd (replay cfg lines) <> Ok (PyInt (Z.of_nat (length (emissions (fst (replay cfg lines)))))).
Proof. by vm_compute. Qed.

End Pacing.

(** ** Loading the action log *)

Section ActionLog.

Import Collect.

Context `{lib : Library}.

Implicit Types (line : string) (lines : list string).

Lemma load_line_defective line :
  malformed line \/ lacks_ip line \/ lacks_timestamp line ->
  failed (load_line line).
Proof.
  unfold failed, load_line.
  intros [Hbad | [(m & Hm & Hip) | (m & Hm & Hts & Hts')]].
  - rewrite Hbad. by eexists.
  - rewrite Hm. simpl. unfold get, getitem. rewrite Hip.
    destruct (if truthy (default JNull (m !! "timestamp"))
              then Ok (default JNull (m !! "timestamp"))
              else match m !! "ts" with Some v => Ok v | None => Raise KeyError end)
      as [stamp|e]; simpl; [|by eexists].
    destruct (parse_dt_value stamp); simpl; by eexists.
  - rewrite Hm. simpl. unfold get, getitem. rewrite Hts, Hts'. simpl. by eexists.
Qed.

Lemma load_actions_fails line lines :
  line ∈ lines -> nonblank line -> failed (load_line line) ->
  failed (load_actions lines).
Proof.
  unfold nonblank. intros Hin Hnb [e He].
  induction lines as [|first rest IH]; [by apply elem_of_nil in Hin|].
  apply elem_of_cons in Hin as [<-|Hin]; simpl.
  - rewrite Hnb, He. by exists e.
  - destruct (PyStr.blank first); [by apply IH|].
    destruct (load_line first) as [event|e']; simpl; [|by exists e'].
    destruct (IH Hin) as [e'' ->]. by exists e''.
Qed.

Lemma load_actions_skips_blank lines :
  load_actions lines = load_actions (filter nonblank lines).
Proof.
  induction lines as [|first rest IH]; [done|].
  rewrite filter_cons.
  destruct (decide (nonblank first)) as [Hnb|Hb]; unfold nonblank in *; simpl.
  - by rewrite Hnb, IH.
  - apply not_false_is_true in Hb. by rewrite Hb.
Qed.

Lemma load_actions_each lines (events : list LoadedEvent) :
  load_actions lines = Ok events ->
  Forall2 (fun line event => load_line line = Ok event) (filter nonblank lines) events.
Proof.
  revert events. induction lines as [|first rest IH]; intros events; simpl.
  - intros [= <-]. constructor.
  - rewrite filter_cons.
    destruct (decide (nonblank first)) as [Hnb|Hb]; unfold nonblank in *.
    + rewrite Hnb.
      destruct (load_line first) as [event|] eqn:Hfirst; simpl; [|done].
      destruct (load_actions rest) as [events'|]; simpl; [|done].
      intros [= <-]. constructor; [done|]. by apply IH.
    + apply not_false_is_true in Hb. rewrite Hb. apply IH.
Qed.

Lemma load_actions_succeeds lines :
  (forall line, line ∈ lines -> nonblank line -> exists event, load_line line = Ok event) ->
  exists events, load_actions lines = Ok events.
Proof.
  induction lines as [|first rest IH]; intros Hall; simpl; [by eexists|].
  destruct IH as [events Hrest].
  { intros line Hin. apply Hall. by apply elem_of_cons; right. }
  destruct (PyStr.blank first) eqn:Hb; [by exists events|].
  destruct (Hall first) as [event ->]; [by apply elem_of_cons; left | done |].
  rewrite Hrest. simpl. by eexists.
Qed.

Lemma load_line_fields line (m : gmap string json) (event : LoadedEvent) :
  json_loads line = Some (JObj m) ->
  load_line line = Ok event ->
  m !! "ip" = Some (loaded_ip event)
  /\ loaded_action event = default (JStr "ban") (m !! "action")
  /\ loaded_jail event = default (JStr "ssh-proxmox") (m !! "jail")
  /\ loaded_reason event = default JNull (m !! "reason").
Proof.
  unfold load_line. intros ->. simpl.
  destruct (if truthy (get m "timestamp" JNull)
            then Ok (get m "timestamp" JNull) else getitem m "ts")
    as [stamp|]; simpl; [|done].
  destruct (parse_dt_value stamp); simpl; [|done].
  unfold getitem. destruct (m !! "ip") as [addr|]; simpl; [|done].
  by intros [= <-].
Qed.

(** C7. Loading fails as a whole as soon as a non-blank line is not JSON,
    has no [ip] key, or has neither a [timestamp] nor a [ts] key; blank
    lines are skipped and no other line is: a load that succeeds has one
    event for each non-blank line, in order. A missing [action] is read as
    ban, a missing [jail] as the jail ssh-proxmox, a missing [reason] as
    none. *)
Theorem load_actions_strict lines :
  (forall line,
     line ∈ lines -> nonblank line ->
     malformed line \/ lacks_ip line \/ lacks_timestamp line ->
     failed (load_actions lines))
  /\ load_actions lines = load_actions (filter nonblank lines)
  /\ (forall events,
        load_actions lines = Ok events ->
        Forall2 (fun line event => load_line line = Ok event)
          (filter nonblank lines) events)
  /\ ((forall line, line ∈ lines -> nonblank line ->
         exists event, load_line line = Ok event) ->
      exists events, load_actions lines = Ok events)
  /\ (forall line (m : gmap string json) (event : LoadedEvent),
        json_loads line = Some (JObj m) ->
        load_line line = Ok event ->
        (m !! "action" = None -> loaded_action event = JStr "ban")
        /\ (m !! "jail" = None -> loaded_jail event = JStr "ssh-proxmox")
        /\ (m !! "reason" = None -> loaded_reason event = JNull)
        /\ (forall v, m !! "action" = Some v -> loaded_action event = v)
        /\ (forall v, m !! "jail" = Some v -> loaded_jail event = v)
        /\ (forall v, m !! "reason" = Some v -> loaded_reason event = v)).
Proof.
  split; [|split; [|split; [|split]]].
  - intros line Hin Hnb Hbad.
    apply (load_actions_fails line lines Hin Hnb).
    by apply load_line_defective.
  - apply load_actions_skips_blank.
  - apply load_actions_each.
  - apply load_actions_succeeds.
  - intros line m event Hm Hev.
    destruct (load_line_fields line m event Hm Hev) as (_ & -> & -> & ->).
    repeat split; by intros; simplify_option_eq.
Qed.

End ActionLog.

(** A log of a good line, a blank line and a line without an address does
    not load; the good line and the blank line load to one event, a ban in
    the jail ssh-proxmox with no reason. *)
Lemma load_actions_strict_witness :
  let event := {| Collect.loaded_timestamp := 63870076801000000;
                  Collect.loaded_ip := JStr "203.0.113.7";
                  Collect.loaded_action := JStr "ban";
                  Collect.loaded_jail := JStr "ssh-proxmox";
                  Collect.loaded_reason := JNull |} in
  failed (@Collect.load_actions Collect.example_library
            [Collect.example_line; "  "; Collect.example_line_without_ip])
  /\ @Collect.load_actions Collect.example_library [Collect.example_line; "  "]
     = Ok [event]
  /\ Collect.loaded_action event = JStr "ban"
  /\ Collect.loaded_jail event = JStr "ssh-proxmox"
  /\ Collect.loaded_reason event = JNull.
Proof.
  intros event.
  destruct (@load_actions_strict Collect.example_library
              [Collect.example_line; "  "; Collect.example_line_without_ip])
    as (Hfail & _ & _ & _ & Hdef).
  split; [|split; [reflexivity|]].
  - apply (Hfail Collect.example_line_without_ip).
    + apply elem_of_cons; right. apply elem_of_cons; right.
      apply elem_of_cons; left. reflexivity.
    + reflexivity.
    + right; left. eexists. split; reflexivity.
  - destruct (Hdef Collect.example_line
                (list_to_map [("ip", JStr "203.0.113.7");
                              ("ts", JStr "2024-12-17T00:00:01Z")])
                event eq_refl eq_refl) as (Ha & Hj & Hr & _).
    split; [apply Ha; reflexivity|]. split; [apply Hj; reflexivity|].
    apply Hr; reflexivity.
Defined.

(** * Further properties of the code *)

(** ** Detection latency, on a log in order of time *)

Section DetectionInOrder.

Import Collect.

Implicit Types (actions : list ActionEvent) (truth : list TruthRow).

(** The first element a filter keeps of a sorted list is the earliest one
    it keeps. *)
Lemma head_filter_sorted (P : ActionEvent -> Prop) `{!forall e, Decision (P e)}
  actions (x : ActionEvent) :
  StronglySorted by_timestamp actions ->
  head (filter P actions) = Some x ->
  x ∈ actions /\ P x
  /\ forall y, y ∈ actions -> P y -> timestamp x <= timestamp y.
Proof.
  induction 1 as [|e l Hl IH He]; [done|].
  rewrite filter_cons. destruct (decide (P e)) as [HP|HP]; simpl.
  - intros [= <-]. split; [by left|]. split; [done|].
    intros y [->|Hy]%elem_of_cons _; [lia|].
    rewrite Forall_forall in He. by apply He.
  - intros Hx. destruct (IH Hx) as (Hin & HPx & Hmin).
    split; [by right|]. split; [done|].
    intros y [->|Hy]%elem_of_cons HPy; [done | by apply Hmin].
Qed.

Lemma first_bans_is_Some actions (a : string) :
  is_Some (first_bans actions !! a) <-> a ∈ banned_ips actions.
Proof.
  rewrite first_bans_lookup, elem_of_banned_ips, fmap_is_Some, head_is_Some.
  split.
  - intros Hne. destruct (filter _ actions) as [|e l] eqn:Hf; [done|].
    assert (He : e ∈ filter (fun e => is_ban e = true /\ ip e = a) actions)
      by (rewrite Hf; by left).
    apply list_elem_of_filter in He as [[Hb Hip] Hin]. by exists e.
  - intros (e & Hin & Hb & Hip) Hnil.
    assert (He : e ∈ filter (fun e => is_ban e = true /\ ip e = a) actions)
      by by apply list_elem_of_filter.
    rewrite Hnil in He. by apply elem_of_nil in He.
Qed.

(** X1. On actions listed in ascending order of time stamp, the latency
    reported for an address that has a ban and a row of the table is taken
    from the earliest of its bans (to the first time stamp of its last
    row). *)
Theorem detection_latency_sorted_input actions truth (a : string) (row : TruthRow) :
  StronglySorted by_timestamp actions ->
  a ∈ banned_ips actions ->
  last (filter (fun r => src_ip r = a) truth) = Some row ->
  exists t : Z,
    compute_detection_times actions truth !! a
    = Some (total_seconds (t - first_ts_parsed row))
    /\ (exists e, e ∈ actions /\ is_ban e = true /\ ip e = a /\ timestamp e = t)
    /\ (forall e, e ∈ actions -> is_ban e = true -> ip e = a -> t <= timestamp e).
Proof.
  intros Hsorted Hbanned Hrow.
  apply first_bans_is_Some in Hbanned as [t Ht].
  exists t. rewrite compute_detection_times_lookup, Ht, Hrow. split; [done|].
  rewrite first_bans_lookup in Ht.
  destruct (head (filter _ actions)) as [x|] eqn:Hhead; [|done].
  injection Ht as <-.
  destruct (head_filter_sorted _ actions x Hsorted Hhead)
    as (Hin & [Hb Hip] & Hmin).
  split; [by exists x|]. intros e He Hbe Hipe. by apply Hmin.
Qed.

(** Two bans of A in order of time, at 5 s and 10 s, and an attack that
    starts at 0 s: the latency is 5 s. *)
Lemma detection_latency_sorted_input_witness :
  let ban t := {| timestamp := t * 1000000; ip := "A"; action := "ban";
                  jail := "ssh-proxmox"; reason := None |} in
  let row := {| src_ip := "A"; label_norm := "malicious"; first_ts_parsed := 0 |} in
  exists t : Z,
    compute_detection_times [ban 5; ban 10] [row] !! "A"
    = Some (total_seconds (t - 0))
    /\ t <= 5000000.
Proof.
  intros ban row.
  destruct (detection_latency_sorted_input [ban 5; ban 10] [row] "A" row)
    as (t & Hlat & _ & Hmin).
  - repeat constructor; unfold by_timestamp; simpl; lia.
  - apply elem_of_banned_ips. exists (ban 5). split; [by left | done].
  - reflexivity.
  - exists t. split; [exact Hlat|].
    apply (Hmin (ban 5)); [by left | reflexivity | reflexivity].
Defined.

Lemma dom_compute_detection_times actions truth :
  dom (compute_detection_times actions truth)
  = banned_ips actions ∩ list_to_set (src_ip <$> truth).
Proof.
  apply set_eq. intros a.
  rewrite elem_of_dom, compute_detection_times_lookup, elem_of_intersection,
    <- first_bans_is_Some, elem_of_list_to_set, list_elem_of_fmap.
  destruct (first_bans actions !! a) as [t|]; [|split; [by intros [] | by intros [[] _]]].
  destruct (last (filter (fun row => src_ip row = a) truth)) as [row|] eqn:Hlast.
  - split; [|by eauto]. intros _. split; [by eauto|].
    apply last_Some_elem_of, list_elem_of_filter in Hlast as [Hip Hin]. by exists row.
  - apply last_None in Hlast. split; [by intros []|].
    intros [_ (row & -> & Hin)].
    assert (Hrow : row ∈ filter (fun r => src_ip r = src_ip row) truth)
      by by apply list_elem_of_filter.
    rewrite Hlast in Hrow. by apply elem_of_nil in Hrow.
Qed.

Lemma count_summarize (data : list Q) : count (summarize data) = length data.
Proof. by destruct data. Qed.

(** X2. In the result of [compute_metrics] the addresses with a detection
    latency are exactly the banned malicious ones, so the number of
    latencies summarised is the number of true positives. *)
Theorem detection_count_is_true_positive actions truth :
  dom (detection_by_ip (compute_metrics actions truth))
  = banned_ips actions ∩ malicious_ips truth
  /\ count (detection_seconds (compute_metrics actions truth))
     = true_positive actions truth.
Proof.
  assert (Hdom : dom (detection_by_ip (compute_metrics actions truth))
                 = banned_ips actions ∩ malicious_ips truth)
    by apply dom_compute_detection_times.
  split; [done|]. unfold true_positive. rewrite <- Hdom. simpl.
  by rewrite count_summarize, length_fmap, length_map_to_list, size_dom.
Qed.

End DetectionInOrder.

(** ** Block durations: entries, addresses and the order of the input *)

Section BlockDurationsMore.

Import Collect.

Implicit Types (actions events : list ActionEvent) (st : BlockState).

Lemma block_step_entries st (e : ActionEvent) :
  entries_nonempty st -> entries_nonempty (block_step st e).
Proof.
  intros Hst a. unfold block_step.
  destruct (is_ban e); [apply Hst|]. destruct (is_unban e); [|apply Hst].
  destruct (default [] (bans st !! ip e)) as [|start rest]; simpl; [apply Hst|].
  destruct (decide (ip e = a)) as [<-|Hne].
  - rewrite lookup_insert_eq. intros [= Habs].
    by apply app_eq_nil in Habs as [_ ?].
  - rewrite lookup_insert_ne by done. apply Hst.
Qed.

Lemma block_loop_entries events st :
  entries_nonempty st -> entries_nonempty (foldl block_step st events).
Proof.
  revert st. induction events as [|e l IH]; intros st Hst; simpl; [done|].
  by apply IH, block_step_entries.
Qed.

Lemma compute_block_durations_entries actions (a : string) :
  compute_block_durations actions !! a <> Some [].
Proof.
  apply (block_loop_entries (sorted_by_timestamp actions)
           {| bans := ∅; durations := ∅ |}).
  intros a'. simpl. by rewrite lookup_empty.
Qed.

(** An entry is determined by the durations recorded for the address. *)
Lemma lookup_by_recorded (m m' : gmap string (list Q)) (a : string) :
  m !! a <> Some [] -> m' !! a <> Some [] ->
  default [] (m !! a) = default [] (m' !! a) ->
  m !! a = m' !! a.
Proof.
  destruct (m !! a) as [[|x l]|], (m' !! a) as [[|x' l']|]; simpl; congruence.
Qed.

Lemma compute_block_durations_recorded actions (a : string) :
  default [] (compute_block_durations actions !! a)
  = spec_fifo_durations [] (filter (fun e => ip e = a) (sorted_by_timestamp actions)).
Proof.
  exact (block_loop_refines (sorted_by_timestamp actions)
           {| bans := ∅; durations := ∅ |} a).
Qed.

Lemma insert_by_timestamp_front (e : ActionEvent) events :
  Forall (by_timestamp e) events -> insert_by_timestamp e events = e :: events.
Proof.
  destruct 1 as [|x l Hx _]; simpl; [done|].
  unfold by_timestamp in Hx. by destruct (Z.leb_spec (timestamp e) (timestamp x)); [|lia].
Qed.

(** Sorting commutes with keeping the events of one kind. *)
Lemma filter_insert_by_timestamp (P : ActionEvent -> Prop)
  `{!forall e, Decision (P e)} (e : ActionEvent) events :
  StronglySorted by_timestamp events ->
  filter P (insert_by_timestamp e events)
  = if decide (P e) then insert_by_timestamp e (filter P events)
    else filter P events.
Proof.
  induction 1 as [|x l Hl IH Hx]; simpl.
  - rewrite filter_cons, filter_nil. by destruct (decide (P e)).
  - destruct (Z.leb_spec (timestamp e) (timestamp x)) as [Hle|Hgt].
    + rewrite (filter_cons _ e). destruct (decide (P e)); [|done].
      rewrite insert_by_timestamp_front; [done|].
      apply Forall_forall. intros y [_ Hy]%list_elem_of_filter.
      apply elem_of_cons in Hy as [->|Hy]; [done|].
      rewrite Forall_forall in Hx. specialize (Hx y Hy).
      unfold by_timestamp in *. lia.
    + rewrite (filter_cons _ x), IH, (filter_cons _ x).
      destruct (decide (P e)), (decide (P x)); simpl; try done.
      by destruct (Z.leb_spec (timestamp e) (timestamp x)); [lia|].
Qed.

Lemma filter_sorted_by_timestamp (P : ActionEvent -> Prop)
  `{!forall e, Decision (P e)} actions :
  filter P (sorted_by_timestamp actions) = sorted_by_timestamp (filter P actions).
Proof.
  induction actions as [|e l IH]; simpl; [done|].
  rewrite filter_insert_by_timestamp by apply sorted_by_timestamp_sorted.
  rewrite filter_cons. destruct (decide (P e)); simpl; by rewrite IH.
Qed.

(** X3. The durations recorded for an address depend on the events of that
    address alone: dropping all other events from the input leaves its
    entry as it is. *)
Theorem block_durations_per_address actions (a : string) :
  compute_block_durations actions !! a
  = compute_block_durations (filter (fun e => ip e = a) actions) !! a.
Proof.
  apply lookup_by_recorded; try apply compute_block_durations_entries.
  rewrite !compute_block_durations_recorded, !filter_sorted_by_timestamp.
  by rewrite list_filter_filter_l.
Qed.

Lemma spec_fifo_durations_length (pending : list Z) events :
  (length (spec_fifo_durations pending events)
   <= length (filter (fun e => is_ban e = false /\ is_unban e = true) events))%nat
  /\ (length (spec_fifo_durations pending events)
      <= length pending + length (filter (fun e => is_ban e = true) events))%nat.
Proof.
  revert pending. induction events as [|e l IH]; intros pending; simpl; [lia|].
  rewrite !filter_cons.
  destruct (is_ban e) eqn:Hb; [|destruct (is_unban e) eqn:Hu].
  - destruct (IH (pending ++ [timestamp e])) as [IH1 IH2].
    rewrite length_app in IH2. simpl in IH2.
    repeat case_decide; simpl; try lia; intuition congruence.
  - destruct pending as [|start rest]; simpl.
    + destruct (IH []) as [IH1 IH2]. simpl in IH2.
      repeat case_decide; simpl; try lia; intuition congruence.
    + destruct (IH rest) as [IH1 IH2].
      repeat case_decide; simpl; try lia; intuition congruence.
  - destruct (IH pending) as [IH1 IH2].
    repeat case_decide; simpl; try lia; intuition congruence.
Qed.

(** X4. [compute_block_durations] has no empty entry: an address has an
    entry only when an unban of it was paired with a ban. The durations of
    an address are at most as many as its bans, and at most as many as its
    unbans. *)
Theorem block_durations_count actions (a : string) :
  compute_block_durations actions !! a <> Some []
  /\ (length (default [] (compute_block_durations actions !! a))
      <= length (filter (fun e => is_ban e = true)
                   (filter (fun e => ip e = a) actions)))%nat
  /\ (length (default [] (compute_block_durations actions !! a))
      <= length (filter (fun e => is_ban e = false /\ is_unban e = true)
                   (filter (fun e => ip e = a) actions)))%nat.
Proof.
  split; [apply compute_block_durations_entries|].
  rewrite compute_block_durations_recorded, filter_sorted_by_timestamp.
  set (own := filter (fun e => ip e = a) actions).
  destruct (spec_fifo_durations_length [] (sorted_by_timestamp own)) as [Hu Hb].
  rewrite filter_sorted_by_timestamp,
    (Permutation_length (sorted_by_timestamp_perm _)) in Hu.
  rewrite filter_sorted_by_timestamp,
    (Permutation_length (sorted_by_timestamp_perm _)) in Hb.
  simpl in Hb. split; lia.
Qed.

(** X5. When no two events carry the same time stamp the block durations
    do not depend on the order of the input. *)
Theorem block_durations_order_independent actions actions' :
  actions ≡ₚ actions' ->
  (forall e1 e2, e1 ∈ actions -> e2 ∈ actions ->
     timestamp e1 = timestamp e2 -> e1 = e2) ->
  compute_block_durations actions = compute_block_durations actions'.
Proof.
  intros Hperm Hinj. unfold compute_block_durations.
  replace (sorted_by_timestamp actions') with (sorted_by_timestamp actions); [done|].
  apply (StronglySorted_unique_strong by_timestamp);
    try apply sorted_by_timestamp_sorted.
  - intros x1 x2 H1 H2 Hle Hge. unfold by_timestamp in *.
    rewrite sorted_by_timestamp_perm in H1.
    rewrite sorted_by_timestamp_perm, <- Hperm in H2.
    apply Hinj; [done|done|lia].
  - by rewrite !sorted_by_timestamp_perm.
Qed.

(** The unban listed before its ban: the result is that of the log in
    order of time. *)
Lemma block_durations_order_independent_witness :
  let event t kind := {| timestamp := t * 1000000; ip := "A"; action := kind;
                         jail := "ssh-proxmox"; reason := None |} in
  compute_block_durations [event 20 "unban"; event 0 "ban"]
  = compute_block_durations [event 0 "ban"; event 20 "unban"].
Proof.
  intros event.
  apply block_durations_order_independent.
  - apply Permutation_swap.
  - intros e1 e2 H1 H2.
    apply elem_of_cons in H1 as [->|H1]; [|apply list_elem_of_singleton in H1 as ->];
      (apply elem_of_cons in H2 as [->|H2]; [|apply list_elem_of_singleton in H2 as ->]);
      simpl; intros Ht; try reflexivity; discriminate Ht.
Defined.

End BlockDurationsMore.

(** ** Summaries *)

Section Summaries.

Import Collect.

Lemma py_min_cases (a b : Q) :
  (py_min a b = a \/ py_min a b = b) /\ (py_min a b <= a)%Q /\ (py_min a b <= b)%Q.
Proof.
  unfold py_min. destruct (Qlt_le_dec b a) as [Hlt|Hle].
  - split; [by right|]. split; [by apply Qlt_le_weak | apply Qle_refl].
  - split; [by left|]. split; [apply Qle_refl | done].
Qed.

Lemma py_max_cases (a b : Q) :
  (py_max a b = a \/ py_max a b = b) /\ (a <= py_max a b)%Q /\ (b <= py_max a b)%Q.
Proof.
  unfold py_max. destruct (Qlt_le_dec a b) as [Hlt|Hle].
  - split; [by right|]. split; [by apply Qlt_le_weak | apply Qle_refl].
  - split; [by left|]. split; [apply Qle_refl | done].
Qed.

Lemma foldl_py_min (x : Q) (rest : list Q) :
  foldl py_min x rest ∈ x :: rest
  /\ forall y, y ∈ x :: rest -> (foldl py_min x rest <= y)%Q.
Proof.
  revert x. induction rest as [|z rest IH]; intros x; simpl.
  - split; [by left|]. intros y ->%list_elem_of_singleton. apply Qle_refl.
  - destruct (IH (py_min x z)) as [Hin Hle].
    destruct (py_min_cases x z) as (Hm & Hx & Hz). split.
    + apply elem_of_cons in Hin as [Heq|Hin]; [|by right; right].
      rewrite Heq. destruct Hm as [-> | ->]; [by left | by right; left].
    + intros y Hy.
      apply elem_of_cons in Hy as [->|Hy]; [|apply elem_of_cons in Hy as [->|Hy]].
      * eapply Qle_trans; [apply Hle; by left | done].
      * eapply Qle_trans; [apply Hle; by left | done].
      * apply Hle. by right.
Qed.

Lemma foldl_py_max (x : Q) (rest : list Q) :
  foldl py_max x rest ∈ x :: rest
  /\ forall y, y ∈ x :: rest -> (y <= foldl py_max x rest)%Q.
Proof.
  revert x. induction rest as [|z rest IH]; intros x; simpl.
  - split; [by left|]. intros y ->%list_elem_of_singleton. apply Qle_refl.
  - destruct (IH (py_max x z)) as [Hin Hle].
    destruct (py_max_cases x z) as (Hm & Hx & Hz). split.
    + apply elem_of_cons in Hin as [Heq|Hin]; [|by right; right].
      rewrite Heq. destruct Hm as [-> | ->]; [by left | by right; left].
    + intros y Hy.
      apply elem_of_cons in Hy as [->|Hy]; [|apply elem_of_cons in Hy as [->|Hy]].
      * eapply Qle_trans; [done | apply Hle; by left].
      * eapply Qle_trans; [done | apply Hle; by left].
      * apply Hle. by right.
Qed.

Lemma summarize_bounds (x : Q) (rest : list Q) :
  (forall y, y ∈ x :: rest -> (foldl py_min x rest <= y)%Q)
  /\ (forall y, y ∈ x :: rest -> (y <= foldl py_max x rest)%Q).
Proof.
  split; [apply foldl_py_min | apply foldl_py_max].
Qed.

Lemma summarize_extremes_of (x : Q) (rest : list Q) :
  let s := summarize (x :: rest) in
  count s = length (x :: rest)
  /\ minimum s ∈ x :: rest
  /\ maximum s ∈ x :: rest
  /\ forall y, y ∈ x :: rest -> (minimum s <= y <= maximum s)%Q.
Proof.
  simpl. destruct (foldl_py_min x rest) as [Hmin Hle].
  destruct (foldl_py_max x rest) as [Hmax Hge].
  repeat split; try done; [by apply Hle | by apply Hge].
Qed.

(** X6. The summary of a non-empty list counts its elements, and its
    minimum and maximum are elements of the list that bound all the
    others. *)
Theorem summarize_extremes (x : Q) (rest : list Q) :
  let s := summarize (x :: rest) in
  count s = length (x :: rest)
  /\ minimum s ∈ x :: rest
  /\ maximum s ∈ x :: rest
  /\ forall y, y ∈ x :: rest -> (minimum s <= y <= maximum s)%Q.
Proof. apply summarize_extremes_of. Qed.

Lemma of_nat_S (n : nat) : (of_nat (S n) == of_nat n + 1)%Q.
Proof.
  unfold of_nat. by rewrite Nat2Z.inj_succ, <- Z.add_1_r, inject_Z_plus.
Qed.

Lemma of_nat_pos (n : nat) : (0 < n)%nat -> (0 < of_nat n)%Q.
Proof. intros H. unfold of_nat, Qlt. simpl. lia. Qed.

Lemma sum_lower (m acc : Q) (data : list Q) :
  (forall y, y ∈ data -> (m <= y)%Q) ->
  (acc + m * of_nat (length data) <= foldl Qplus acc data)%Q.
Proof.
  revert acc. induction data as [|y l IH]; intros acc Hall; simpl.
  - change (of_nat 0) with 0%Q. lra.
  - assert (Hy : (m <= y)%Q) by (apply Hall; by left).
    assert (Hl : forall z, z ∈ l -> (m <= z)%Q) by (intros z Hz; apply Hall; by right).
    specialize (IH (acc + y)%Q Hl).
    change (length (y :: l)) with (S (length l)). rewrite of_nat_S.
    set (k := of_nat (length l)) in *. nra.
Qed.

Lemma sum_upper (m acc : Q) (data : list Q) :
  (forall y, y ∈ data -> (y <= m)%Q) ->
  (foldl Qplus acc data <= acc + m * of_nat (length data))%Q.
Proof.
  revert acc. induction data as [|y l IH]; intros acc Hall; simpl.
  - change (of_nat 0) with 0%Q. lra.
  - assert (Hy : (y <= m)%Q) by (apply Hall; by left).
    assert (Hl : forall z, z ∈ l -> (z <= m)%Q) by (intros z Hz; apply Hall; by right).
    specialize (IH (acc + y)%Q Hl).
    change (length (y :: l)) with (S (length l)). rewrite of_nat_S.
    set (k := of_nat (length l)) in *. nra.
Qed.

Lemma elem_of_insert_sorted (y x : Q) (l : list Q) :
  y ∈ insert_sorted x l <-> y = x \/ y ∈ l.
Proof.
  induction l as [|z l IH]; simpl.
  - rewrite list_elem_of_singleton, elem_of_nil. tauto.
  - destruct (Qle_bool x z).
    + rewrite !elem_of_cons. tauto.
    + rewrite !elem_of_cons, IH. tauto.
Qed.

Lemma elem_of_sorted (y : Q) (data : list Q) : y ∈ sorted data <-> y ∈ data.
Proof.
  unfold sorted. induction data as [|x l IH]; simpl; [done|].
  by rewrite elem_of_insert_sorted, IH, elem_of_cons.
Qed.

Lemma nth_elem (i : nat) (l : list Q) : (i < length l)%nat -> nth i l 0%Q ∈ l.
Proof. intros H. apply list_elem_of_In. by apply nth_In. Qed.

(** The median is an element of the list or the mean of two. *)
Lemma statistics_median_between (lo hi : Q) (data : list Q) :
  data <> [] ->
  (forall y, y ∈ data -> (lo <= y <= hi)%Q) ->
  (lo <= statistics_median data <= hi)%Q.
Proof.
  intros Hne Hall. unfold statistics_median.
  assert (Hs : forall y, y ∈ sorted data -> (lo <= y <= hi)%Q)
    by (intros y Hy; by apply Hall, elem_of_sorted).
  assert (Hlen : (0 < length (sorted data))%nat).
  { destruct data as [|x l]; [done|].
    assert (Hx : x ∈ sorted (x :: l)) by (apply elem_of_sorted; by left).
    destruct (sorted (x :: l)); [by apply elem_of_nil in Hx | simpl; lia]. }
  set (s := sorted data) in *. set (n := length s) in *.
  assert (Hhalf : (n / 2 < n)%nat) by (apply Nat.div_lt; lia).
  destruct (Nat.odd n) eqn:Hodd.
  - apply Hs, nth_elem. done.
  - assert (Ha : (lo <= nth (n / 2 - 1) s 0 <= hi)%Q) by (apply Hs, nth_elem; lia).
    assert (Hb : (lo <= nth (n / 2) s 0 <= hi)%Q) by (apply Hs, nth_elem; lia).
    set (a := nth (n / 2 - 1) s 0%Q) in *. set (b := nth (n / 2) s 0%Q) in *.
    split.
    + apply Qle_shift_div_l; lra.
    + apply Qle_shift_div_r; lra.
Qed.

Lemma summarize_between_of (x : Q) (rest : list Q) :
  let s := summarize (x :: rest) in
  (minimum s <= avg s <= maximum s)%Q
  /\ (minimum s <= median s <= maximum s)%Q.
Proof.
  destruct (summarize_bounds x rest) as (Hlo & Hhi).
  simpl. split.
  - assert (Hn : (0 < of_nat (length (x :: rest)))%Q) by (apply of_nat_pos; simpl; lia).
    split.
    + apply Qle_shift_div_l; [done|].
      pose proof (sum_lower (foldl py_min x rest) 0 (x :: rest) Hlo) as H.
      unfold sum. change (length (x :: rest)) with (S (length rest)) in H.
      by rewrite Qplus_0_l in H.
    + apply Qle_shift_div_r; [done|].
      pose proof (sum_upper (foldl py_max x rest) 0 (x :: rest) Hhi) as H.
      unfold sum. change (length (x :: rest)) with (S (length rest)) in H.
      by rewrite Qplus_0_l in H.
  - apply statistics_median_between; [done|].
    intros y Hy. split; [by apply Hlo | by apply Hhi].
Qed.

Lemma summarize_median_of (data : list Q) :
  let s := summarize data in
  (minimum s <= median s <= maximum s)%Q.
Proof.
  destruct data as [|x rest]; [simpl; lra|].
  by destruct (summarize_between_of x rest).
Qed.

(** X7. In a metrics result the median of the detection latencies lies
    between the least and the greatest of them, and the median of the block
    durations between the least and the greatest of those. *)
Theorem summary_medians_between (actions : list ActionEvent) (truth : list TruthRow) :
  let result := compute_metrics actions truth in
  (minimum (detection_seconds result) <= median (detection_seconds result)
   <= maximum (detection_seconds result))%Q
  /\ (minimum (blocking_seconds result) <= median (blocking_seconds result)
      <= maximum (blocking_seconds result))%Q.
Proof. split; apply summarize_median_of. Qed.

End Summaries.

(** ** The run history *)

Section HistoryMore.

Import Collect.

Implicit Types (history : list RunEntry).

(** X8. [update_history] writes back the stored history followed by the
    new entry, whatever it then returns. It raises exactly when that
    history has two entries or more of which exactly one has a detection
    latency, and then it raises [StatisticsError]. When it returns, the
    accuracy deviation is set exactly when the history has two entries or
    more, and the detection deviation exactly when, besides, two entries or
    more have a detection latency. *)
Theorem update_history_outcomes (stored : option (list RunEntry)) (run_entry : RunEntry) :
  let history := default [] stored ++ [run_entry] in
  let outcome := snd (update_history stored run_entry) in
  fst (update_history stored run_entry) = history
  /\ (failed outcome <->
      (2 <= length history)%nat /\ length (detection_vals history) = 1%nat)
  /\ (forall e, outcome = Raise e -> e = StatisticsError)
  /\ (forall r, outcome = Ok r ->
        (is_Some (accuracy_std r) <-> (2 <= length history)%nat)
        /\ (is_Some (detection_seconds_std r) <->
            (2 <= length history)%nat /\ (2 <= length (detection_vals history))%nat)).
Proof.
  intros history outcome. split; [done|].
  destruct (Nat.le_gt_cases 2 (length history)) as [Hge|Hlt].
  - destruct (update_history_repeatability stored run_entry Hge)
      as (_ & Hnone & Hmany & Hone).
    fold history in Hnone, Hmany, Hone. fold outcome in Hnone, Hmany, Hone.
    destruct (detection_vals history) as [|x [|y l]] eqn:Hvals; simpl in *.
    + rewrite (Hnone eq_refl). split; [|split].
      * split; [by intros [e He] | intros [_ ?]; lia].
      * done.
      * intros r [= <-]. simpl. split.
        -- split; [done | by eexists].
        -- split; [by intros [? ?] | intros [_ ?]; lia].
    + rewrite (Hone eq_refl). split; [|split].
      * split; [done | by eexists].
      * by intros e [= <-].
      * done.
    + rewrite Hmany by lia. split; [|split].
      * split; [by intros [e He] | intros [_ ?]; lia].
      * done.
      * intros r [= <-]. simpl. split.
        -- split; [done | by eexists].
        -- split; [intros _; split; lia | by eexists].
  - assert (Hout : outcome
                   = Ok {| detection_seconds_std := None; accuracy_std := None |}).
    { subst outcome. unfold update_history. cbn [snd]. fold history.
      by destruct (Nat.leb_spec 2 (length history)); [lia|]. }
    rewrite Hout. split; [|split].
    + split; [by intros [e He] | intros [? _]; lia].
    + done.
    + intros r [= <-]. simpl. split.
      * split; [by intros [? ?] | lia].
      * split; [by intros [? ?] | intros [? _]; lia].
Qed.

Lemma sum_constant (c : Q) (data : list Q) :
  (forall y, y ∈ data -> (y == c)%Q) ->
  (sum data == c * of_nat (length data))%Q.
Proof.
  intros Hall. unfold sum. apply Qle_antisym.
  - rewrite <- (Qplus_0_l (c * _)). apply sum_upper.
    intros y Hy. rewrite (Hall y Hy). apply Qle_refl.
  - rewrite <- (Qplus_0_l (c * _)). apply sum_lower.
    intros y Hy. rewrite (Hall y Hy). apply Qle_refl.
Qed.

Lemma variance_constant (c : Q) (data : list Q) :
  (2 <= length data)%nat ->
  (forall y, y ∈ data -> (y == c)%Q) ->
  (variance data == 0)%Q.
Proof.
  intros Hlen Hall. unfold variance.
  assert (Hn : ~ (of_nat (length data) == 0)%Q).
  { intros H. pose proof (of_nat_pos (length data)) as Hpos.
    rewrite H in Hpos. apply (Qlt_irrefl 0), Hpos. lia. }
  assert (Hmean : (mean data == c)%Q).
  { unfold mean. rewrite (sum_constant c data Hall). by apply Qdiv_mult_l. }
  rewrite (sum_constant 0).
  - unfold Qdiv. by rewrite !Qmult_0_l.
  - intros y (x & -> & Hx)%list_elem_of_fmap.
    rewrite Hmean, (Hall x Hx). ring.
Qed.

(** X9. Runs that all have the same accuracy have an accuracy deviation
    of zero. *)
Theorem accuracy_std_of_equal_runs (stored : option (list RunEntry))
  (run_entry : RunEntry) (c : Q) (r : Repeatability) :
  let history := default [] stored ++ [run_entry] in
  (2 <= length history)%nat ->
  (forall h, h ∈ history -> (accuracy (metrics h) == c)%Q) ->
  snd (update_history stored run_entry) = Ok r ->
  accuracy_std r = Some 0%R.
Proof.
  intros history Hlen Hall Hr.
  assert (Hdev : sqrt (Q2R (variance (accuracy_vals history))) = 0%R).
  { rewrite (Qeq_eqR _ 0).
    - replace (Q2R 0) with 0%R by (unfold Q2R; simpl; field). apply sqrt_0.
    - apply (variance_constant c).
      + unfold accuracy_vals. by rewrite length_fmap.
      + intros y (h & -> & Hh)%list_elem_of_fmap. by apply Hall. }
  destruct (update_history_repeatability stored run_entry Hlen)
    as (_ & Hnone & Hmany & Hone).
  fold history in Hnone, Hmany, Hone.
  destruct (detection_vals history) as [|x [|y l]] eqn:Hvals; simpl in *.
  - rewrite (Hnone eq_refl) in Hr. injection Hr as <-. simpl. by rewrite Hdev.
  - rewrite (Hone eq_refl) in Hr. discriminate Hr.
  - rewrite Hmany in Hr by lia. injection Hr as <-. simpl. by rewrite Hdev.
Qed.

(** Two runs of accuracy 1 with no detection latency. *)
Lemma accuracy_std_of_equal_runs_witness :
  let entry name :=
    {| run_id := name; notes := "";
       metrics :=
         {| counts := {| count_malicious_ips := 0; count_benign_ips := 1;
                         count_unknown_ips := 0; count_banned_ips := 0 |};
            metrics_tpr := 0; metrics_fpr := 0; accuracy := 1;
            detection_seconds := summarize [];
            blocking_seconds := summarize [];
            detection_by_ip := ∅; blocking_by_ip := ∅ |} |} in
  exists r,
    snd (update_history (Some [entry "run-1"]) (entry "run-2")) = Ok r
    /\ accuracy_std r = Some 0%R.
Proof.
  intros entry. eexists. split; [reflexivity|].
  apply (accuracy_std_of_equal_runs (Some [entry "run-1"]) (entry "run-2") 1).
  - simpl. lia.
  - intros h Hh. simpl in Hh.
    apply elem_of_cons in Hh as [->|Hh]; [reflexivity|].
    apply list_elem_of_singleton in Hh as ->. reflexivity.
  - reflexivity.
Defined.

End HistoryMore.

(** ** Parsing time stamps and lines of the action log *)

Section ActionLogMore.

Import Collect.

Context `{lib : Library}.

Implicit Types (line : string) (lines : list string).

Lemma try_formats_first (fmts : list string) (value : string) :
  match try_formats fmts value with
  | Ok t =>
      exists (i : nat) (fmt : string),
        fmts !! i = Some fmt /\ strptime value fmt = Some t
        /\ forall (j : nat) (fmt' : string),
             (j < i)%nat -> fmts !! j = Some fmt' -> strptime value fmt' = None
  | Raise e =>
      e = ValueError /\ forall fmt, fmt ∈ fmts -> strptime value fmt = None
  end.
Proof.
  induction fmts as [|fmt rest IH]; simpl.
  - split; [done|]. by intros fmt Hin%elem_of_nil.
  - destruct (strptime value fmt) as [t|] eqn:Hfmt.
    + exists 0%nat, fmt. repeat split; try done. intros j fmt' Hj. lia.
    + destruct (try_formats rest value) as [t|e].
      * destruct IH as (i & fmt' & Hi & Ht & Hbefore).
        exists (S i), fmt'. repeat split; try done.
        intros [|j] fmt'' Hj; simpl; [by intros [= <-]|].
        apply Hbefore. lia.
      * destruct IH as [-> Hnone]. split; [done|].
        intros fmt' [->|Hin]%elem_of_cons; [done | by apply Hnone].
Qed.

(** X10. [parse_dt] answers with the first of the four formats, in the
    order of [DATETIME_FORMATS], that reads the text; it raises, and then
    [ValueError], exactly when none of them reads it. *)
Theorem parse_dt_first_format (value : string) :
  match parse_dt value with
  | Ok t =>
      exists (i : nat) (fmt : string),
        DATETIME_FORMATS !! i = Some fmt /\ strptime value fmt = Some t
        /\ forall (j : nat) (fmt' : string),
             (j < i)%nat -> DATETIME_FORMATS !! j = Some fmt' ->
             strptime value fmt' = None
  | Raise e =>
      e = ValueError
      /\ forall fmt, fmt ∈ DATETIME_FORMATS -> strptime value fmt = None
  end.
Proof. apply try_formats_first. Qed.

(** X11. Loading a log in two parts: the events of the first part followed
    by those of the second, and the error of the first part when it has
    one. *)
Theorem load_actions_app lines lines' :
  load_actions (lines ++ lines')
  = let* events := load_actions lines in
    let* events' := load_actions lines' in
    Ok (events ++ events').
Proof.
  induction lines as [|line rest IH]; simpl.
  - by destruct (load_actions lines').
  - destruct (PyStr.blank line); [done|].
    destruct (load_line line) as [event|e]; simpl; [|done].
    rewrite IH. destruct (load_actions rest) as [events|e]; simpl; [|done].
    by destruct (load_actions lines').
Qed.

(** X12. A load that fails stops at the first non-blank line that does
    not load, with the error of that line: all lines before it load. *)
Theorem load_actions_first_error lines :
  match load_actions lines with
  | Ok events => length events = length (filter nonblank lines)
  | Raise e =>
      exists (before : list string) (line : string) (after : list string),
        lines = before ++ line :: after
        /\ nonblank line
        /\ load_line line = Raise e
        /\ exists events, load_actions before = Ok events
  end.
Proof.
  induction lines as [|line rest IH]; simpl; [done|].
  rewrite filter_cons. unfold nonblank at 1. unfold nonblank at 1.
  destruct (decide (PyStr.blank line = false)) as [Hnb|Hb].
  - rewrite Hnb. destruct (load_line line) as [event|e] eqn:Hline; simpl.
    + destruct (load_actions rest) as [events|e]; simpl.
      * by rewrite IH.
      * destruct IH as (before & bad & after & -> & Hbad & Hraise & events & Hok).
        exists (line :: before), bad, after. repeat split; try done.
        exists (event :: events). simpl. by rewrite Hnb, Hline, Hok.
    + exists [], line, rest. repeat split; try done. by exists [].
  - apply not_false_is_true in Hb. rewrite Hb.
    destruct (load_actions rest) as [events|e]; [done|].
    destruct IH as (before & bad & after & -> & Hbad & Hraise & events & Hok).
    exists (line :: before), bad, after. repeat split; try done.
    exists events. simpl. by rewrite Hb.
Qed.

(** What [load_line] does once the text of the time stamp is chosen. *)
Lemma load_line_with_stamp line (m : gmap string json) (stamp : json) :
  json_loads line = Some (JObj m) ->
  (if truthy (get m "timestamp" JNull)
   then Ok (get m "timestamp" JNull) else getitem m "ts") = Ok stamp ->
  (forall e, parse_dt_value stamp = Raise e -> load_line line = Raise e)
  /\ (forall event, load_line line = Ok event ->
        parse_dt_value stamp = Ok (loaded_timestamp event)).
Proof.
  intros Hm Hstamp. unfold load_line. rewrite Hm. simpl. rewrite Hstamp. simpl.
  destruct (parse_dt_value stamp) as [t|e]; simpl.
  - split; [done|]. intros event.
    destruct (getitem m "ip"); simpl; [|done]. by intros [= <-].
  - split; [by intros e' [= <-] | done].
Qed.

(** X13. The time stamp of an event is read from the key [timestamp] when
    its value is true in Python's sense, whatever [ts] holds; when
    [timestamp] is missing or false (null, empty text, zero) it is read
    from [ts], and the line fails with [KeyError] when [ts] is missing
    too. *)
Theorem load_line_timestamp_key line (m : gmap string json) :
  json_loads line = Some (JObj m) ->
  (forall v, m !! "timestamp" = Some v -> truthy v = true ->
     (forall e, parse_dt_value v = Raise e -> load_line line = Raise e)
     /\ (forall event, load_line line = Ok event ->
           parse_dt_value v = Ok (loaded_timestamp event)))
  /\ (truthy (default JNull (m !! "timestamp")) = false ->
      match m !! "ts" with
      | None => load_line line = Raise KeyError
      | Some w =>
          (forall e, parse_dt_value w = Raise e -> load_line line = Raise e)
          /\ (forall event, load_line line = Ok event ->
                parse_dt_value w = Ok (loaded_timestamp event))
      end).
Proof.
  intros Hm. split.
  - intros v Hv Htrue. apply (load_line_with_stamp line m v Hm).
    unfold get. rewrite Hv. simpl. by rewrite Htrue.
  - intros Hfalse. destruct (m !! "ts") as [w|] eqn:Hts.
    + apply (load_line_with_stamp line m w Hm).
      unfold get, getitem. by rewrite Hfalse, Hts.
    + unfold load_line, get, getitem. rewrite Hm. simpl. by rewrite Hfalse, Hts.
Qed.

Ltac in_list := rewrite !elem_of_cons; tauto.

Lemma parse_dt_value_raises (v : json) (e : exn) :
  parse_dt_value v = Raise e -> e = ValueError \/ e = TypeError.
Proof.
  destruct v; simpl; try (intros [= <-]; by right).
  unfold parse_dt. pose proof (try_formats_first DATETIME_FORMATS s) as H.
  intros He. rewrite He in H. left. by destruct H.
Qed.

(** X14. The errors of a line: text that is not JSON raises
    [JSONDecodeError]; a JSON value that is not an object raises
    [AttributeError]; besides these a line raises nothing but [KeyError],
    [TypeError] and [ValueError]. A line that loads is an object with the
    key [ip], whose value the event carries as it is. *)
Theorem load_line_errors line :
  (json_loads line = None -> load_line line = Raise JSONDecodeError)
  /\ (forall payload,
        json_loads line = Some payload -> (forall m, payload <> JObj m) ->
        load_line line = Raise AttributeError)
  /\ (forall e, load_line line = Raise e ->
        e ∈ [JSONDecodeError; AttributeError; KeyError; TypeError; ValueError])
  /\ (forall event, load_line line = Ok event ->
        exists m, json_loads line = Some (JObj m)
                  /\ m !! "ip" = Some (loaded_ip event)).
Proof.
  unfold load_line. destruct (json_loads line) as [payload|]; simpl.
  - split; [done|]. split; [|split].
    + intros ? [= <-] Hno. destruct payload; try done. by destruct (Hno m).
    + intros e. destruct payload; simpl; try (intros [= <-]; in_list).
      unfold getitem.
      destruct (if truthy (get m "timestamp" JNull)
                then Ok (get m "timestamp" JNull)
                else match m !! "ts" with Some v => Ok v | None => Raise KeyError end)
        as [stamp|e'] eqn:Hstamp; simpl.
      * destruct (parse_dt_value stamp) as [t|e'] eqn:Ht; simpl.
        -- destruct (m !! "ip"); simpl; [done|]. intros [= <-]. in_list.
        -- intros [= <-]. destruct (parse_dt_value_raises _ _ Ht) as [-> | ->]; in_list.
      * intros [= <-]. destruct (truthy _); [done|].
        destruct (m !! "ts"); [done|]. injection Hstamp as <-. in_list.
    + intros event. destruct payload; simpl; try done.
      destruct (if truthy (get m "timestamp" JNull)
                then Ok (get m "timestamp" JNull) else getitem m "ts"); simpl; [|done].
      destruct (parse_dt_value a); simpl; [|done].
      unfold getitem. destruct (m !! "ip") as [addr|] eqn:Hip; simpl; [|done].
      intros [= <-]. by exists m.
  - split; [done|]. split; [done|]. split; [|done].
    intros e [= <-]. in_list.
Qed.

End ActionLogMore.

(** The example line has no [timestamp] key: its time stamp is read from
    [ts]. *)
Lemma load_line_timestamp_key_witness :
  let event := {| Collect.loaded_timestamp := 63870076801000000;
                  Collect.loaded_ip := JStr "203.0.113.7";
                  Collect.loaded_action := JStr "ban";
                  Collect.loaded_jail := JStr "ssh-proxmox";
                  Collect.loaded_reason := JNull |} in
  @Collect.parse_dt_value Collect.example_library (JStr "2024-12-17T00:00:01Z")
  = Ok (Collect.loaded_timestamp event).
Proof.
  intros event.
  destruct (@load_line_timestamp_key Collect.example_library Collect.example_line
              (list_to_map [("ip", JStr "203.0.113.7");
                            ("ts", JStr "2024-12-17T00:00:01Z")]) eq_refl)
    as [_ Hts].
  exact (proj2 (Hts eq_refl) event eq_refl).
Defined.

(** ** The ground-truth table *)

Section GroundTruth.

Import Collect.

Context `{lib : Library}.

Implicit Types (rows : list RawRow) (truth : list TruthRow).

Lemma load_rows_each rows truth :
  load_rows rows = Ok truth ->
  Forall2 (fun row r =>
             src_ip r = raw_src_ip row
             /\ label_norm r = normalize_label (raw_label row)
             /\ parse_first_ts (raw_first_ts row) = Ok (first_ts_parsed r))
    rows truth.
Proof.
  revert truth. induction rows as [|row rest IH]; intros truth; simpl.
  - intros [= <-]. constructor.
  - unfold load_row.
    destruct (parse_first_ts (raw_first_ts row)) as [t|] eqn:Ht; simpl; [|done].
    destruct (load_rows rest) as [rs|]; simpl; [|done].
    intros [= <-]. constructor; [done|]. by apply IH.
Qed.

Lemma load_rows_fails rows (row : RawRow) (e : exn) :
  row ∈ rows -> parse_first_ts (raw_first_ts row) = Raise e ->
  failed (load_rows rows).
Proof.
  intros Hin He. induction rows as [|first rest IH]; [by apply elem_of_nil in Hin|].
  simpl. unfold load_row at 1.
  apply elem_of_cons in Hin as [<-|Hin].
  - rewrite He. by exists e.
  - destruct (parse_first_ts (raw_first_ts first)); simpl; [|by eexists].
    destruct (IH Hin) as [e' ->]. by exists e'.
Qed.

(** X15. [load_ground_truth] raises [ValueError] when one of the columns
    [src_ip], [label], [first_ts] is missing. Otherwise it fails as a whole
    when the first time stamp of some row does not parse, and when it
    returns, the table has the rows of the frame in order, each with its
    address, its label normalised and its first time stamp parsed. *)
Theorem load_ground_truth_rows (columns : list string) rows :
  (forall c, c ∈ REQUIRED_COLUMNS -> c ∉ columns ->
     load_ground_truth columns rows = Raise ValueError)
  /\ (forall (row : RawRow) (e : exn),
        row ∈ rows -> parse_first_ts (raw_first_ts row) = Raise e ->
        failed (load_ground_truth columns rows))
  /\ (forall truth,
        load_ground_truth columns rows = Ok truth ->
        (forall c, c ∈ REQUIRED_COLUMNS -> c ∈ columns)
        /\ Forall2 (fun row r =>
                      src_ip r = raw_src_ip row
                      /\ label_norm r = normalize_label (raw_label row)
                      /\ parse_first_ts (raw_first_ts row) = Ok (first_ts_parsed r))
             rows truth).
Proof.
  unfold load_ground_truth.
  destruct (forallb _ REQUIRED_COLUMNS) eqn:Hcols.
  - assert (Hall : forall c, c ∈ REQUIRED_COLUMNS -> c ∈ columns).
    { intros c Hc. rewrite forallb_forall in Hcols.
      apply list_elem_of_In in Hc. by apply Hcols, bool_decide_eq_true in Hc. }
    split; [|split].
    + intros c Hc Hmiss. destruct Hmiss. by apply Hall.
    + intros row e. apply load_rows_fails.
    + intros truth Hok. split; [done | by apply load_rows_each].
  - split; [done|]. split; [by eexists | done].
Qed.

Lemma load_rows_labels rows truth :
  load_rows rows = Ok truth ->
  forall r, r ∈ truth ->
    label_norm r = "malicious" \/ label_norm r = "benign" \/ label_norm r = "unknown".
Proof.
  intros Hok%load_rows_each r Hr.
  induction Hok as [|row r' rows truth (_ & Hl & _) _ IH]; [by apply elem_of_nil in Hr|].
  apply elem_of_cons in Hr as [->|Hr]; [|by apply IH].
  rewrite Hl. unfold normalize_label.
  destruct (PyStr.contains "ATTACK" _); [by left|].
  destruct (PyStr.contains "UNKNOWN" _); [by right; right | by right; left].
Qed.

End GroundTruth.

Section AddressSets.

Import Collect.

Implicit Types (truth : list TruthRow).

(** X16. On a table whose labels are normalised, the malicious, benign and
    unknown addresses together are all the addresses of the table, and when
    no address has rows with two different labels the three sets are
    disjoint from one another. *)
Theorem address_sets_cover truth :
  (forall r, r ∈ truth ->
     label_norm r = "malicious" \/ label_norm r = "benign" \/ label_norm r = "unknown") ->
  malicious_ips truth ∪ benign_ips truth ∪ unknown_ips truth = all_ips truth
  /\ ((forall r r', r ∈ truth -> r' ∈ truth -> src_ip r = src_ip r' ->
         label_norm r = label_norm r') ->
      malicious_ips truth ## benign_ips truth
      /\ malicious_ips truth ## unknown_ips truth
      /\ benign_ips truth ## unknown_ips truth).
Proof.
  intros Hlabels. split.
  - apply set_eq. intros a. unfold malicious_ips, benign_ips, unknown_ips, all_ips.
    rewrite !elem_of_union, !elem_of_ips_labelled, elem_of_list_to_set,
      list_elem_of_fmap.
    split.
    + intros [[(r & Hr & _ & <-) | (r & Hr & _ & <-)] | (r & Hr & _ & <-)];
        by exists r.
    + intros (r & -> & Hr).
      destruct (Hlabels r Hr) as [Hl | [Hl | Hl]];
        [left; left | left; right | right]; by exists r.
  - intros Hone. unfold malicious_ips, benign_ips, unknown_ips.
    repeat split; intros a (r & Hr & Hl & <-)%elem_of_ips_labelled
                          (r' & Hr' & Hl' & Heq)%elem_of_ips_labelled;
      specialize (Hone r r' Hr Hr' (eq_sym Heq)); congruence.
Qed.

(** A table of one malicious and one benign address. *)
Lemma address_sets_cover_witness :
  let row a l := {| src_ip := a; label_norm := l; first_ts_parsed := 0 |} in
  let truth := [row "A" "malicious"; row "B" "benign"] in
  malicious_ips truth ∪ benign_ips truth ∪ unknown_ips truth = all_ips truth
  /\ malicious_ips truth ## benign_ips truth.
Proof.
  intros row truth.
  destruct (address_sets_cover truth) as [Hcover Hdisjoint].
  - intros r Hr. apply elem_of_cons in Hr as [->|Hr]; [by left|].
    apply list_elem_of_singleton in Hr as ->. by right; left.
  - split; [exact Hcover|]. apply Hdisjoint.
    intros r r' Hr Hr'.
    apply elem_of_cons in Hr as [->|Hr]; [|apply list_elem_of_singleton in Hr as ->];
      (apply elem_of_cons in Hr' as [->|Hr']; [|apply list_elem_of_singleton in Hr' as ->]);
      simpl; intros Heq; try reflexivity; discriminate Heq.
Defined.

End AddressSets.

(** ** The log source *)

Section LogSource.

Import Replay.

Lemma candidate_of_micro (line : string) (y m : Z) (c : datetime) :
  candidate_of line y m = Ok c -> microsecond c = 0.
Proof.
  unfold candidate_of.
  destruct (PyStr.int (PyStr.slice 4 6 line)) as [d|]; simpl; [|done].
  destruct (strptime_hms (PyStr.slice 7 15 line)) as [[[h mi] sec]|]; simpl; [|done].
  by intros [-> _]%construct_ok.
Qed.

Lemma parse_syslog_timestamp_result_of (line : string) (current_year : Z)
  (previous : option datetime) (r : datetime) :
  parse_syslog_timestamp line current_year previous = Ok r ->
  valid r = true
  /\ microsecond r = 0
  /\ SYSLOG_MONTHS !! PyStr.slice 0 3 line = Some (month r)
  /\ (previous = None -> year r = current_year)
  /\ (forall p, previous = Some p ->
        year p <= year r
        /\ (current_year = year p -> year r <= year p + 1)).
Proof.
  unfold parse_syslog_timestamp.
  destruct (SYSLOG_MONTHS !! PyStr.slice 0 3 line) as [m|]; [|done].
  destruct (candidate_of line current_year m) as [c|] eqn:Hc; simpl; [|done].
  destruct (candidate_of_ok _ _ _ _ Hc) as (Hvalid & Hyear & Hmonth).
  pose proof (candidate_of_micro _ _ _ _ Hc) as Hmicro.
  assert (Hm : Some m = Some (month c)) by by rewrite Hmonth.
  assert (Hfinish : forall y : Z,
            (previous = None -> y = current_year) ->
            (forall p, previous = Some p ->
               year p <= y /\ (current_year = year p -> y <= year p + 1)) ->
            valid (with_year c y) = true ->
            valid (with_year c y) = true
            /\ microsecond (with_year c y) = 0
            /\ Some m = Some (month (with_year c y))
            /\ (previous = None -> year (with_year c y) = current_year)
            /\ (forall p, previous = Some p ->
                  year p <= year (with_year c y)
                  /\ (current_year = year p -> year (with_year c y) <= year p + 1)))
    by (intros y H1 H2 H3; repeat split; try done; by apply H2).
  assert (Hsame : with_year c (year c) = c) by by destruct c.
  destruct previous as [p|].
  - destruct (lt c p && (m =? 1) && (month p =? 12)).
    + intros [-> Hv]%construct_ok. apply Hfinish; [done| |done].
      intros ? [= <-]. lia.
    + destruct (Z.ltb_spec (year c) (year p)) as [Hlt|Hge].
      * intros [-> Hv]%construct_ok. apply Hfinish; [done| |done].
        intros ? [= <-]. lia.
      * intros [= <-]. rewrite <- Hsame. apply Hfinish; [done| |by rewrite Hsame].
        intros ? [= <-]. lia.
  - intros [= <-]. rewrite <- Hsame. apply Hfinish; [done|done|by rewrite Hsame].
Qed.

(** X17. A time stamp [parse_syslog_timestamp] returns is a date that
    exists, with the month the line names and no microseconds. Read
    without a previous time stamp it has the year of the hint; read after
    one, its year is never before the year of the previous one, and it is
    that year or the next when the hint is that year. *)
Theorem parse_syslog_timestamp_result (line : string) (current_year : Z)
  (previous : option datetime) (r : datetime) :
  parse_syslog_timestamp line current_year previous = Ok r ->
  valid r = true
  /\ microsecond r = 0
  /\ SYSLOG_MONTHS !! PyStr.slice 0 3 line = Some (month r)
  /\ (previous = None -> year r = current_year)
  /\ (forall p, previous = Some p ->
        year p <= year r
        /\ (current_year = year p -> year r <= year p + 1)).
Proof. apply parse_syslog_timestamp_result_of. Qed.

(** The line of 1 January after one of 31 December. *)
Lemma parse_syslog_timestamp_result_witness :
  let previous := {| year := 2024; month := 12; day := 31; hour := 23;
                     minute := 59; second := 59; microsecond := 0 |} in
  let r := {| year := 2025; month := 1; day := 1; hour := 0; minute := 0;
              second := 1; microsecond := 0 |} in
  valid r = true /\ year previous <= year r.
Proof.
  intros previous r.
  destruct (parse_syslog_timestamp_result "Jan 01 00:00:01 host sshd[1]: x" 2024
              (Some previous) r eq_refl) as (Hvalid & _ & _ & _ & Hyear).
  split; [exact Hvalid|]. by destruct (Hyear previous eq_refl).
Defined.

Lemma read_from_years (raws : list string) (year_hint : Z)
  (previous : option datetime) (ip_filter : option string) :
  (forall p, previous = Some p -> year_hint = year p) ->
  let lines := fst (read_from raws year_hint previous ip_filter) in
  Sorted year_step lines
  /\ Forall (fun l => valid (timestamp l) = true) lines
  /\ forall l, head lines = Some l ->
       year_hint <= year (timestamp l)
       /\ (previous = None -> year (timestamp l) = year_hint)
       /\ year (timestamp l) <= year_hint + 1.
Proof.
  revert year_hint previous.
  induction raws as [|line rest IH]; intros year_hint previous Hhint; simpl.
  - repeat split; [constructor | constructor | done..].
  - destruct (PyStr.blank line); [by apply IH|].
    destruct (filtered_out ip_filter line); [by apply IH|].
    destruct (parse_syslog_timestamp line year_hint previous) as [t|e] eqn:Ht; simpl.
    + destruct (parse_syslog_timestamp_result_of _ _ _ _ Ht)
        as (Hvalid & _ & _ & Hnone & Hsome).
      specialize (IH (year t) (Some t)).
      destruct (read_from rest (year t) (Some t) ip_filter) as [lines outcome].
      destruct IH as (Hsorted & Hall & Hhead); [by intros ? [= <-]|].
      simpl in *. split; [|split].
      * constructor; [done|]. destruct lines as [|l lines']; constructor.
        destruct (Hhead l eq_refl) as (Hlo & _ & Hhi). split; simpl; lia.
      * by constructor.
      * intros l [= <-]. simpl. destruct previous as [p|].
        -- destruct (Hsome p eq_refl) as [Hlo Hhi].
           rewrite (Hhint p eq_refl) in *. repeat split; try done; lia.
        -- rewrite (Hnone eq_refl). repeat split; lia.
    + repeat split; [constructor | constructor | done..].
Qed.

(** X18. Along the lines [read_log_lines] yields, the year of the first is
    the start year and from each line to the next the year stays or goes
    up by one: it never goes back. Every time stamp yielded is a date that
    exists. *)
Theorem read_log_lines_years (raws : list string) (start_year : Z)
  (ip_filter : option string) :
  let lines := fst (read_log_lines raws start_year ip_filter) in
  Sorted year_step lines
  /\ Forall (fun l => valid (timestamp l) = true) lines
  /\ forall l, head lines = Some l -> year (timestamp l) = start_year.
Proof.
  destruct (read_from_years raws start_year None ip_filter) as (Hs & Hv & Hh); [done|].
  split; [done|]. split; [done|].
  intros l Hl. by destruct (Hh l Hl) as (_ & Hy & _); apply Hy.
Qed.

(** X19. Blank lines and lines without the filter text leave no trace:
    reading a file gives what reading its other lines alone gives. *)
Theorem read_log_lines_skips (raws : list string) (start_year : Z)
  (ip_filter : option string) :
  read_log_lines raws start_year ip_filter
  = read_log_lines (filter (kept ip_filter) raws) start_year ip_filter.
Proof.
  unfold read_log_lines. generalize (@None datetime). revert start_year.
  induction raws as [|line rest IH]; intros y previous; simpl; [done|].
  rewrite filter_cons.
  destruct (decide (kept ip_filter line)) as [[Hb Hf]|Hno]; simpl.
  - rewrite Hb, Hf.
    destruct (parse_syslog_timestamp line y previous) as [t|]; [|done].
    by rewrite IH.
  - destruct (PyStr.blank line) eqn:Hb; [apply IH|].
    destruct (filtered_out ip_filter line) eqn:Hf; [apply IH|].
    by destruct Hno.
Qed.

Lemma replace_year_raises (c : datetime) (y : Z) (e : exn) :
  valid c = true -> fits_int y = true ->
  replace_year c y = Raise e -> e = ValueError.
Proof.
  intros Hc Hy. unfold replace_year, construct.
  rewrite fits_with_year by done. apply checked_raises.
Qed.

(** After a time stamp that exists, [parse_syslog_timestamp] raises
    [ValueError], or [OverflowError] when the year hint does not fit a
    C [int]. *)
Lemma parse_syslog_timestamp_raises (line : string) (y : Z)
  (previous : option datetime) (e : exn) :
  (forall p, previous = Some p -> valid p = true) ->
  parse_syslog_timestamp line y previous = Raise e ->
  e = ValueError \/ (e = OverflowError /\ fits_int y = false).
Proof.
  intros Hprev. unfold parse_syslog_timestamp.
  destruct (SYSLOG_MONTHS !! PyStr.slice 0 3 line) as [m|] eqn:Hm;
    [|intros [= <-]; by left].
  apply SYSLOG_MONTHS_range in Hm.
  destruct (candidate_of line y m) as [c|e'] eqn:Hc; simpl.
  - destruct (candidate_of_ok _ _ _ _ Hc) as (Hvalid & _ & _).
    destruct previous as [p|]; [|done].
    pose proof (valid_year _ (Hprev p eq_refl)) as Hp.
    destruct (lt c p && (m =? 1) && (month p =? 12)).
    + intros He%replace_year_raises; [by left|done|]. apply fits_int_spec. lia.
    + destruct (year c <? year p); [|done].
      intros He%replace_year_raises; [by left|done|]. apply fits_int_spec. lia.
  - intros [= <-]. by apply candidate_of_raises in Hc.
Qed.

Lemma state_after_cons (l : LogLine) (lines : list LogLine) (st : Z * option datetime) :
  state_after (l :: lines) st
  = state_after lines (year (timestamp l), Some (timestamp l)).
Proof. unfold state_after. rewrite last_cons. by destruct (last lines). Qed.

(** What the loop of [read_log_lines] yields from a state of its two
    variables, line by line. *)
Lemma read_from_parses (raws : list string) (st : Z * option datetime)
  (ip_filter : option string) :
  let lines := fst (read_from raws (fst st) (snd st) ip_filter) in
  let outcome := snd (read_from raws (fst st) (snd st) ip_filter) in
  let source := filter (kept ip_filter) raws in
  raw <$> lines = rstrip_newlines <$> take (length lines) source
  /\ (forall i line l, source !! i = Some line -> lines !! i = Some l ->
        parse_in (state_after (take i lines) st) line = Ok (timestamp l))
  /\ (outcome = None -> length lines = length source)
  /\ (forall e, outcome = Some e ->
        exists line, source !! length lines = Some line
          /\ parse_in (state_after lines st) line = Raise e).
Proof.
  revert st. induction raws as [|line0 rest IH]; intros st; simpl.
  - by repeat split.
  - rewrite filter_cons.
    destruct (decide (kept ip_filter line0)) as [[Hb Hf]|Hno]; simpl.
    + rewrite Hb, Hf.
      destruct (parse_syslog_timestamp line0 (fst st) (snd st)) as [t|e] eqn:Ht; simpl.
      * specialize (IH (year t, Some t)). simpl in IH.
        destruct (read_from rest (year t) (Some t) ip_filter) as [lines outcome].
        simpl in *. destruct IH as (Hraw & Hparse & Hnone & Hsome).
        split; [f_equal; exact Hraw|]. split; [|split].
        -- intros [|i] line l Hi Hl; simpl in *.
           ++ injection Hi as <-. injection Hl as <-. exact Ht.
           ++ rewrite state_after_cons. simpl. by apply Hparse.
        -- intros Ho. by rewrite Hnone.
        -- intros e He. destruct (Hsome e He) as (line & Hline & Hfail).
           exists line. split; [done|]. by rewrite state_after_cons.
      * split; [done|]. split; [|split]; [|done|].
        -- intros i line l _ Hl. by rewrite lookup_nil in Hl.
        -- intros e' [= <-]. by exists line0.
    + destruct (PyStr.blank line0) eqn:Hb; [apply IH|].
      destruct (filtered_out ip_filter line0) eqn:Hf; [apply IH|].
      by destruct Hno.
Qed.

(** The exception that ends the iteration is [ValueError], or
    [OverflowError] on the first line read with a year hint that does not
    fit a C [int]. *)
Lemma read_from_raises (raws : list string) (y : Z) (previous : option datetime)
  (ip_filter : option string) (e : exn) :
  (forall p, previous = Some p -> valid p = true) ->
  snd (read_from raws y previous ip_filter) = Some e ->
  e = ValueError
  \/ (e = OverflowError /\ fits_int y = false
      /\ fst (read_from raws y previous ip_filter) = []).
Proof.
  revert y previous. induction raws as [|line0 rest IH]; intros y previous Hprev; simpl.
  - done.
  - destruct (PyStr.blank line0); [by apply IH|].
    destruct (filtered_out ip_filter line0); [by apply IH|].
    destruct (parse_syslog_timestamp line0 y previous) as [t|e'] eqn:Ht; simpl.
    + destruct (parse_syslog_timestamp_result_of _ _ _ _ Ht) as (Hvalid & _).
      specialize (IH (year t) (Some t)).
      destruct (read_from rest (year t) (Some t) ip_filter) as [lines outcome].
      simpl in *. intros He.
      destruct IH as [->|(_ & Hfit & _)]; [by intros ? [= <-] | done | by left |].
      apply valid_year in Hvalid.
      assert (fits_int (year t) = true) by (apply fits_int_spec; lia). congruence.
    + intros [= <-].
      destruct (parse_syslog_timestamp_raises _ _ _ _ Hprev Ht) as [->|[-> Hfit]];
        [by left | by right].
Qed.

(** X20. The lines [read_log_lines] yields are the lines of the file that
    are not blank and hold the filter text, in order and without their
    trailing newlines, each with the time stamp [parse_syslog_timestamp]
    gives it after the lines yielded before it. Iteration goes on until
    the first such line whose parse raises, and ends with that exception:
    [ValueError], or [OverflowError] when nothing has been yielded and the
    start year does not fit a C [int]. When no parse raises, every such
    line is yielded. *)
Theorem read_log_lines_yields (raws : list string) (start_year : Z)
  (ip_filter : option string) :
  let lines := fst (read_log_lines raws start_year ip_filter) in
  let outcome := snd (read_log_lines raws start_year ip_filter) in
  let source := filter (kept ip_filter) raws in
  let start : Z * option datetime := (start_year, None) in
  raw <$> lines = rstrip_newlines <$> take (length lines) source
  /\ (forall i line l, source !! i = Some line -> lines !! i = Some l ->
        parse_in (state_after (take i lines) start) line = Ok (timestamp l))
  /\ (outcome = None -> length lines = length source)
  /\ (forall e, outcome = Some e ->
        (exists line, source !! length lines = Some line
           /\ parse_in (state_after lines start) line = Raise e)
        /\ (e = ValueError
            \/ (e = OverflowError /\ fits_int start_year = false /\ lines = []))).
Proof.
  intros lines outcome source start.
  destruct (read_from_parses raws start ip_filter) as (Hraw & Hparse & Hnone & Hsome).
  split; [exact Hraw|]. split; [exact Hparse|]. split; [exact Hnone|].
  intros e He. split; [by apply Hsome|].
  by apply (read_from_raises raws start_year None ip_filter e).
Qed.

End LogSource.

(** ** What a run of the pacer does and does not do *)

Section PacerEffects.

Import Replay.

Implicit Types (cfg : Config) (st : LoopState) (line : LogLine)
  (lines : list LogLine) (trace : list effect).

Lemma fst_seq {A B : Type} (m : M A) (k : A -> M B) :
  fst (seq m k)
  = fst m ++ match snd m with Ok a => fst (k a) | Raise _ => [] end.
Proof.
  destruct m as [t [a|e]]; simpl; [|by rewrite app_nil_r].
  by destruct (k a).
Qed.

Lemma snd_seq {A B : Type} (m : M A) (k : A -> M B) :
  snd (seq m k) = match snd m with Ok a => snd (k a) | Raise e => Raise e end.
Proof. destruct m as [t [a|e]]; simpl; [|done]. by destruct (k a). Qed.

(** Every effect of a turn of the loop is one of [turn_effect]. *)
Lemma body_effects cfg st line (e : effect) :
  e ∈ fst (body cfg st line) -> turn_effect cfg st line e.
Proof.
  unfold body, turn_effect. rewrite fst_seq.
  intros [Hpace | Hrest]%elem_of_app.
  - left. unfold pace in Hpace.
    destruct (last_ts st) as [last|]; [|by apply elem_of_nil in Hpace].
    destruct (Qlt_le_dec 0 (seconds_between (timestamp line) last)) as [Hpos|];
      [|by apply elem_of_nil in Hpace].
    destruct (Qeq_bool (speed_factor cfg) 0); [by apply elem_of_nil in Hpace|].
    apply list_elem_of_singleton in Hpace. by exists last.
  - right.
    destruct (snd (pace cfg (last_ts st) line)) as [[]|];
      [|by apply elem_of_nil in Hrest].
    rewrite fst_seq in Hrest. apply elem_of_app in Hrest as [Hemit | Hrest].
    + unfold emit_line in Hemit. destruct (dry_run cfg) eqn:Hdry.
      * left. by apply list_elem_of_singleton in Hemit.
      * right; left. rewrite fst_seq in Hemit. simpl in Hemit.
        apply elem_of_cons in Hemit as [Hrun | Hr]; [done|].
        destruct (cmd cfg _); by apply elem_of_nil in Hr.
    + destruct (snd (emit_line cfg (raw line))) as [[]|];
        [|by apply elem_of_nil in Hrest].
      right; right. rewrite fst_seq in Hrest.
      apply elem_of_app in Hrest as [Hstatus | Hret].
      * destruct (negb (status_interval cfg =? 0)
                  && ((emitted st + 1) mod status_interval cfg =? 0)) eqn:Hs;
          [|by apply elem_of_nil in Hstatus].
        apply andb_prop in Hs as [Hi Hm]. apply list_elem_of_singleton in Hstatus.
        apply negb_true_iff, Z.eqb_neq in Hi. by apply Z.eqb_eq in Hm.
      * destruct (snd _) as [[]|]; by apply elem_of_nil in Hret.
Qed.

Lemma loop_effects cfg lines st (e : effect) :
  e ∈ fst (loop cfg st lines) ->
  exists st' line, line ∈ lines /\ turn_effect cfg st' line e.
Proof.
  revert st. induction lines as [|line rest IH]; intros st; simpl.
  - by intros ?%elem_of_nil.
  - rewrite fst_seq. intros [Hbody | Hrest]%elem_of_app.
    + exists st, line. split; [by left | by apply body_effects].
    + destruct (snd (body cfg st line)) as [[st' []]|]; simpl in Hrest;
        try by apply elem_of_nil in Hrest.
      destruct (IH st' Hrest) as (st'' & l & Hl & He).
      exists st'', l. split; [by right | done].
Qed.

Lemma replay_effects cfg lines (e : effect) :
  e ∈ fst (replay cfg lines) ->
  (exists st line, line ∈ lines /\ turn_effect cfg st line e)
  \/ exists n, e = Finished n.
Proof.
  unfold replay. rewrite fst_seq. intros [Hloop | Hend]%elem_of_app.
  - left. by apply loop_effects in Hloop.
  - right. destruct (snd (loop cfg _ lines)) as [st|]; [|by apply elem_of_nil in Hend].
    simpl in Hend. apply list_elem_of_singleton in Hend. by eexists.
Qed.



(** X22. A dry run never runs the sink, and a run that is not dry never
    prints a line on standard output. *)
Theorem replay_dry_run cfg lines :
  Forall (fun e => (if dry_run cfg then is_run e else is_print e) = false)
    (fst (replay cfg lines)).
Proof.
  apply Forall_forall. intros e He.
  destruct (replay_effects cfg lines e He)
    as [(st & line & _ & [Hturn | [Hturn | [Hturn | Hturn]]]) | [n ->]].
  - destruct Hturn as (last & _ & _ & ->). by destruct (dry_run cfg).
  - by destruct Hturn as [-> ->].
  - by destruct Hturn as [-> ->].
  - destruct Hturn as (_ & _ & ->). by destruct (dry_run cfg).
  - by destruct (dry_run cfg).
Qed.

Lemma seq_ok {A B : Type} (t : list effect) (a : A) (k : A -> M B) :
  seq (t, Ok a) k = (t ++ fst (k a), snd (k a)).
Proof. simpl. by destruct (k a). Qed.

(** The turn of the loop on a line whose emission fails: it sleeps as for
    any line, runs the sink, and raises. *)
Lemma body_fails cfg st line :
  Qeq_bool (speed_factor cfg) 0 = false ->
  dry_run cfg = false ->
  cmd cfg (raw line +:+ newline) = false ->
  exists trace,
    body cfg st line
    = (trace ++ [Run (raw line +:+ newline)], Raise CalledProcessError)
    /\ emissions trace = [].
Proof.
  intros Hspeed Hdry Hcmd. unfold body, pace, emit_line.
  rewrite Hdry, Hcmd.
  destruct (last_ts st) as [last|]; [rewrite Hspeed|];
    try destruct (Qlt_le_dec 0 (seconds_between (timestamp line) last));
    simpl.
  - by eexists [Sleep _].
  - by exists [].
  - by exists [].
Qed.

Lemma loop_abort cfg (before : list LogLine) (bad : LogLine) (after : list LogLine) st :
  Qeq_bool (speed_factor cfg) 0 = false ->
  Forall (emits_ok cfg) before ->
  dry_run cfg = false ->
  cmd cfg (raw bad +:+ newline) = false ->
  (forall k, 1 <= k <= Z.of_nat (length before) ->
     limit_reached cfg (emitted st + k) = false) ->
  exists trace,
    loop cfg st (before ++ bad :: after)
    = (trace ++ [Run (raw bad +:+ newline)], Raise CalledProcessError)
    /\ emissions trace = emitted_text cfg <$> before.
Proof.
  intros Hspeed Hall Hdry Hcmd. revert st.
  induction Hall as [|line before Hline Hall IH]; intros st Hlimit.
  - destruct (body_fails cfg st bad Hspeed Hdry Hcmd) as (trace & Hbody & Hem).
    exists trace. simpl. unfold seq at 1. by rewrite Hbody.
  - destruct (body_ok cfg st line Hspeed Hline) as (trace & Hbody & _ & Hem).
    rewrite Hlimit in Hbody by (simpl; lia).
    destruct (IH {| emitted := emitted st + 1; last_ts := Some (timestamp line) |})
      as (trace' & Hloop & Hem').
    { intros k Hk. simpl. rewrite <- Z.add_assoc. apply Hlimit. simpl length. lia. }
    exists (trace ++ trace'). split.
    + change ((line :: before) ++ bad :: after)
        with (line :: (before ++ bad :: after)).
      cbn [loop]. rewrite Hbody, seq_ok. cbn [fst snd]. rewrite Hloop.
      cbn [fst snd]. by rewrite app_assoc.
    + by rewrite emissions_app, Hem, Hem'.
Qed.

(** X23. When the sink fails on a line, the run stops there with
    [CalledProcessError]: the lines before it have been emitted, the failed
    call is the last thing the run does, no later line is emitted and the
    final message is not written. (The failing line is one the run gets to:
    the limit is not reached before it.) *)
Theorem replay_sink_failure cfg (before : list LogLine) (bad : LogLine)
  (after : list LogLine) :
  Qeq_bool (speed_factor cfg) 0 = false ->
  Forall (emits_ok cfg) before ->
  dry_run cfg = false ->
  cmd cfg (raw bad +:+ newline) = false ->
  (forall k, 1 <= k <= Z.of_nat (length before) -> limit_reached cfg k = false) ->
  exists trace,
    replay cfg (before ++ bad :: after)
    = (trace ++ [Run (raw bad +:+ newline)], Raise CalledProcessError)
    /\ emissions trace = emitted_text cfg <$> before.
Proof.
  intros Hspeed Hall Hdry Hcmd Hlimit.
  destruct (loop_abort cfg before bad after {| emitted := 0; last_ts := None |}
              Hspeed Hall Hdry Hcmd Hlimit) as (trace & Hloop & Hem).
  exists trace. unfold replay, seq. by rewrite Hloop.
Qed.

(** A sink that takes the first line and fails on the second. *)
Lemma replay_sink_failure_witness :
  let stamp := {| year := 2024; month := 12; day := 17; hour := 0;
                  minute := 0; second := 0; microsecond := 0 |} in
  let line text := {| raw := text; timestamp := stamp |} in
  let cfg := {| speed_factor := 600; sleep_cap := 5; status_interval := 1000;
                cmd := fun input => String.eqb input ("a" +:+ newline);
                dry_run := false; max_lines := None |} in
  exists trace,
    replay cfg [line "a"; line "b"; line "c"]
    = (trace ++ [Run ("b" +:+ newline)], Raise CalledProcessError)
    /\ emissions trace = ["a" +:+ newline].
Proof.
  intros stamp line cfg.
  apply (replay_sink_failure cfg [line "a"] (line "b") [line "c"]).
  - reflexivity.
  - constructor; [right; reflexivity | constructor].
  - reflexivity.
  - reflexivity.
  - intros k Hk. reflexivity.
Defined.

Lemma statuses_app trace trace' :
  statuses (trace ++ trace') = statuses trace ++ statuses trace'.
Proof. apply omap_app. Qed.

Lemma body_ok_statuses cfg st line :
  Qeq_bool (speed_factor cfg) 0 = false ->
  emits_ok cfg line ->
  statuses (fst (body cfg st line))
  = if negb (status_interval cfg =? 0)
       && ((emitted st + 1) mod status_interval cfg =? 0)
    then [(emitted st + 1, timestamp line)] else [].
Proof.
  intros Hspeed Hemit. unfold body, pace, emit_line.
  destruct (negb (status_interval cfg =? 0)
            && ((emitted st + 1) mod status_interval cfg =? 0));
    (destruct (last_ts st) as [last|]; [rewrite Hspeed|];
     try destruct (Qlt_le_dec 0 (seconds_between (timestamp line) last));
     destruct Hemit as [Hdry|Hcmd];
     try rewrite Hdry; try (destruct (dry_run cfg); [|rewrite Hcmd]);
     reflexivity).
Qed.

Lemma loop_ok_statuses cfg lines st :
  Qeq_bool (speed_factor cfg) 0 = false ->
  Forall (emits_ok cfg) lines ->
  statuses (fst (loop cfg st lines))
  = due_statuses cfg (emitted st) (reached cfg (emitted st) lines).
Proof.
  intros Hspeed Hall. revert st.
  induction Hall as [|line lines Hline Hall IH]; intros st.
  - unfold reached. simpl.
    destruct (max_lines cfg) as [limit|]; [destruct (limit =? 0)|];
      by rewrite ?take_nil.
  - rewrite reached_cons. cbn [loop due_statuses].
    pose proof (body_ok_statuses cfg st line Hspeed Hline) as Hst.
    destruct (body_ok cfg st line Hspeed Hline) as (trace & Hbody & _ & _).
    rewrite Hbody in Hst. cbn [fst] in Hst.
    rewrite Hbody, seq_ok. cbn [fst snd]. rewrite statuses_app, Hst.
    f_equal. destruct (limit_reached cfg (emitted st + 1)); [done|].
    apply IH.
Qed.

Lemma due_statuses_none cfg (n : Z) lines :
  status_interval cfg = 0 -> due_statuses cfg n lines = [].
Proof.
  intros Hz. revert n. induction lines as [|line rest IH]; intros n; simpl; [done|].
  by rewrite Hz, IH.
Qed.

Lemma multiple_step (n i : Z) :
  0 < i ->
  (n + 1) / i - n / i = if (n + 1) mod i =? 0 then 1 else 0.
Proof.
  intros Hi. destruct (Z.eqb_spec ((n + 1) mod i) 0) as [Hm|Hm];
    Z.div_mod_to_equations; nia.
Qed.

Lemma due_statuses_length cfg (n : Z) lines :
  0 < status_interval cfg ->
  Z.of_nat (length (due_statuses cfg n lines))
  = (n + Z.of_nat (length lines)) / status_interval cfg - n / status_interval cfg.
Proof.
  intros Hi. revert n. induction lines as [|line rest IH]; intros n.
  - simpl. rewrite Z.add_0_r. lia.
  - cbn [due_statuses]. rewrite length_app, Nat2Z.inj_add, IH.
    pose proof (multiple_step n (status_interval cfg) Hi) as Hstep.
    replace (n + Z.of_nat (length (line :: rest)))
      with (n + 1 + Z.of_nat (length rest)) by (simpl length; lia).
    destruct (Z.eqb_spec (status_interval cfg) 0) as [Hz|_]; [lia|].
    simpl negb. cbn [andb].
    destruct ((n + 1) mod status_interval cfg =? 0); simpl length; lia.
Qed.

Lemma due_statuses_elem cfg (n : Z) lines (k : Z) (t : datetime) :
  (k, t) ∈ due_statuses cfg n lines ->
  status_interval cfg <> 0 /\ k mod status_interval cfg = 0
  /\ n < k /\ timestamp <$> lines !! Z.to_nat (k - n - 1) = Some t.
Proof.
  revert n. induction lines as [|line rest IH]; intros n; simpl.
  - by intros ?%elem_of_nil.
  - intros [Hhere | Hrest]%elem_of_app.
    + destruct (Z.eqb_spec (status_interval cfg) 0) as [Hz|Hnz];
        [by apply elem_of_nil in Hhere|]. simpl in Hhere.
      destruct (Z.eqb_spec ((n + 1) mod status_interval cfg) 0) as [Hm|Hm];
        [|by apply elem_of_nil in Hhere].
      apply list_elem_of_singleton in Hhere. injection Hhere as -> ->.
      repeat split; try done; try lia.
      by replace (n + 1 - n - 1) with 0 by lia.
    + destruct (IH (n + 1) Hrest) as (Hnz & Hm & Hlt & Hlook).
      repeat split; try done; try lia.
      replace (Z.to_nat (k - n - 1)) with (S (Z.to_nat (k - (n + 1) - 1))) by lia.
      done.
Qed.

(** X24. In a run in which no emission fails, progress is reported by
    count exactly at the multiples of the status interval, each time with
    the time stamp of the line just emitted: with a positive interval that
    is once every [status_interval] lines, and with an interval of 0
    never. *)
Theorem replay_status_messages cfg lines :
  Qeq_bool (speed_factor cfg) 0 = false ->
  Forall (emits_ok cfg) lines ->
  let done := reached cfg 0 lines in
  let reports := statuses (fst (replay cfg lines)) in
  (status_interval cfg = 0 -> reports = [])
  /\ (0 < status_interval cfg ->
      Z.of_nat (length reports) = Z.of_nat (length done) / status_interval cfg)
  /\ (forall k t, (k, t) ∈ reports ->
        k mod status_interval cfg = 0
        /\ 0 < k
        /\ timestamp <$> done !! Z.to_nat (k - 1) = Some t).
Proof.
  intros Hspeed Hall done reports.
  assert (Hreports : reports = due_statuses cfg 0 done).
  { subst reports done. unfold replay. rewrite fst_seq, statuses_app.
    rewrite (loop_ok_statuses cfg lines {| emitted := 0; last_ts := None |} Hspeed Hall).
    destruct (snd (loop cfg _ lines)); simpl; by rewrite app_nil_r. }
  rewrite Hreports. split; [|split].
  - apply due_statuses_none.
  - intros Hi. rewrite due_statuses_length by done.
    rewrite Z.add_0_l, Z.div_0_l by lia. lia.
  - intros k t Hk. destruct (due_statuses_elem cfg 0 done k t Hk) as (_ & Hm & Hlt & Hl).
    split; [done|]. split; [done|]. by rewrite Z.sub_0_r in Hl.
Qed.

(** Five lines with an interval of two: two reports. *)
Lemma replay_status_messages_witness :
  let stamp := {| year := 2024; month := 12; day := 17; hour := 0;
                  minute := 0; second := 0; microsecond := 0 |} in
  let line text := {| raw := text; timestamp := stamp |} in
  let cfg := {| speed_factor := 600; sleep_cap := 5; status_interval := 2;
                cmd := fun _ => true; dry_run := true; max_lines := None |} in
  Z.of_nat (length (statuses (fst (replay cfg [line "a"; line "b"; line "c";
                                               line "d"; line "e"]))))
  = 2.
Proof.
  intros stamp line cfg.
  set (lines := [line "a"; line "b"; line "c"; line "d"; line "e"]).
  assert (Hall : Forall (emits_ok cfg) lines)
    by (repeat (constructor; [left; reflexivity|]); constructor).
  destruct (replay_status_messages cfg lines eq_refl Hall) as (_ & Hcount & _).
  rewrite Hcount; [reflexivity | reflexivity].
Defined.

End PacerEffects.

(** ** From the hook to the collector *)

Section HookToCollector.

Import Collect.

Context `{lib : Library} `{w : Logger.Writer}.

Lemma payload_lookups (now : Z) (args : Logger.Args) :
  let m := Logger.payload now args in
  m !! "timestamp" = Some (JStr (Logger.strftime now Logger.STAMP_FORMAT))
  /\ m !! "ip" = Some (JStr (Logger.ip args))
  /\ m !! "action" = Some (JStr (Logger.action args))
  /\ m !! "jail" = Some (JStr (Logger.jail args))
  /\ m !! "reason" = Some (JStr (Logger.reason args)).
Proof.
  simpl. unfold Logger.payload. simpl.
  repeat split;
    repeat (rewrite lookup_insert_ne by done); by rewrite lookup_insert_eq.
Qed.

(** X25. What the hook writes, the collector reads back: when the library
    decodes the written line to the dictionary it encodes, reads the time
    stamp back in the hook's format, and the stamp and the line are not
    empty, then the line loads to an event with the hook's time, address,
    action, jail and reason (the reason as text, the empty text when none
    was given), and a log that loads still loads after the hook has
    appended to it, with that event at its end. *)
Theorem logged_line_loads (now : Z) (args : Logger.Args) :
  json_loads (Logger.logged_line now args) = Some (JObj (Logger.payload now args)) ->
  strptime (Logger.strftime now Logger.STAMP_FORMAT) Logger.STAMP_FORMAT = Some now ->
  Logger.strftime now Logger.STAMP_FORMAT <> "" ->
  PyStr.blank (Logger.logged_line now args) = false ->
  let event := {| loaded_timestamp := now;
                  loaded_ip := JStr (Logger.ip args);
                  loaded_action := JStr (Logger.action args);
                  loaded_jail := JStr (Logger.jail args);
                  loaded_reason := JStr (Logger.reason args) |} in
  load_line (Logger.logged_line now args) = Ok event
  /\ forall (file : list string) (events : list LoadedEvent),
       load_actions file = Ok events ->
       load_actions (Logger.main now args file) = Ok (events ++ [event]).
Proof.
  intros Hloads Hstamp Hne Hnb event.
  assert (Hline : load_line (Logger.logged_line now args) = Ok event).
  { destruct (payload_lookups now args) as (Ht & Hi & Ha & Hj & Hr).
    unfold load_line. rewrite Hloads. simpl. unfold get, getitem.
    rewrite Ht, Hi, Ha, Hj, Hr. simpl.
    apply String.eqb_neq in Hne. rewrite Hne. simpl.
    unfold parse_dt. simpl.
    change "%Y-%m-%dT%H:%M:%S.%fZ" with Logger.STAMP_FORMAT.
    by rewrite Hstamp. }
  split; [done|]. intros file events Hfile. unfold Logger.main.
  induction file as [|line rest IH] in events, Hfile |- *; simpl in *.
  - injection Hfile as <-. by rewrite Hnb, Hline.
  - destruct (PyStr.blank line); [by apply IH|].
    destruct (load_line line) as [first|]; simpl in *; [|done].
    destruct (load_actions rest) as [others|]; simpl in *; [|done].
    injection Hfile as <-. by rewrite (IH others eq_refl).
Qed.

End HookToCollector.

(** One call of the hook, read back. *)
Lemma logged_line_loads_witness :
  @Collect.load_actions Logger.example_reader
    (@Logger.main Logger.example_writer 63870076801000000 Logger.example_args [])
  = Ok [ {| Collect.loaded_timestamp := 63870076801000000;
            Collect.loaded_ip := JStr "203.0.113.7";
            Collect.loaded_action := JStr "unban";
            Collect.loaded_jail := JStr "sshd";
            Collect.loaded_reason := JStr "" |} ].
Proof.
  destruct (@logged_line_loads Logger.example_reader Logger.example_writer
              63870076801000000 Logger.example_args) as [_ Hfile];
    [reflexivity | reflexivity | discriminate | reflexivity |].
  exact (Hfile [] [] eq_refl).
Defined.

(** ** The figures of a metrics result *)

Section MetricsFigures.

Import Collect.

Implicit Types (actions : list ActionEvent) (truth : list TruthRow).

Lemma ratio_unit (a b : nat) :
  (a <= b)%nat -> (0 < b)%nat -> (0 <= of_nat a / of_nat b <= 1)%Q.
Proof.
  intros Hab Hb. pose proof (of_nat_pos b Hb) as Hpos.
  assert (Ha : (0 <= of_nat a)%Q) by (unfold of_nat, Qle; simpl; lia).
  assert (Hle : (of_nat a <= of_nat b)%Q) by (unfold of_nat, Qle; simpl; lia).
  split.
  - apply Qle_shift_div_l; [done|]. by rewrite Qmult_0_l.
  - apply Qle_shift_div_r; [done|]. by rewrite Qmult_1_l.
Qed.

Lemma nonempty_size (X : gset string) : nonempty X = true -> (0 < size X)%nat.
Proof.
  unfold nonempty. intros H%negb_true_iff%Nat.eqb_neq. lia.
Qed.

(** X26. The three rates of a metrics result are between 0 and 1. *)
Theorem rates_in_unit_interval actions truth :
  let result := compute_metrics actions truth in
  (0 <= metrics_tpr result <= 1)%Q
  /\ (0 <= metrics_fpr result <= 1)%Q
  /\ (0 <= accuracy result <= 1)%Q.
Proof.
  simpl. unfold tpr, fpr, accuracy_of.
  assert (Htp : (true_positive actions truth <= size (malicious_ips truth))%nat)
    by apply subseteq_size, intersection_subseteq_r.
  assert (Hfp : (false_positive actions truth <= size (benign_ips truth))%nat)
    by apply subseteq_size, intersection_subseteq_r.
  assert (Htn : (true_negative actions truth <= size (benign_ips truth))%nat)
    by (unfold true_negative; lia).
  split; [|split].
  - destruct (nonempty (malicious_ips truth)) eqn:Hm; [|lra].
    apply ratio_unit; [done | by apply nonempty_size].
  - destruct (nonempty (benign_ips truth)) eqn:Hb; [|lra].
    apply ratio_unit; [done | by apply nonempty_size].
  - destruct (nonempty (malicious_ips truth) || nonempty (benign_ips truth)) eqn:Hmb;
      [|lra].
    apply ratio_unit; [lia|].
    apply orb_prop in Hmb as [H%nonempty_size | H%nonempty_size]; lia.
Qed.

Lemma summarize_nonneg (data : list Q) :
  Forall (fun d => (0 <= d)%Q) data ->
  let s := summarize data in
  (0 <= minimum s)%Q /\ (0 <= avg s)%Q /\ (0 <= median s)%Q /\ (0 <= maximum s)%Q.
Proof.
  intros Hall. destruct data as [|x rest]; [simpl; repeat split; lra|].
  destruct (summarize_extremes_of x rest) as (_ & Hmin & _ & _).
  destruct (summarize_between_of x rest) as ((Ha & Ha') & (Hm & Hm')).
  rewrite Forall_forall in Hall.
  assert (H0 : (0 <= minimum (summarize (x :: rest)))%Q) by by apply Hall.
  cbv zeta. repeat split; [done | lra | lra | lra].
Qed.

(** X27. The summary of the block durations in a metrics result has no
    negative figure: minimum, average, median and maximum are all at least
    zero. *)
Theorem blocking_summary_nonnegative actions truth :
  let s := blocking_seconds (compute_metrics actions truth) in
  (0 <= minimum s)%Q /\ (0 <= avg s)%Q /\ (0 <= median s)%Q /\ (0 <= maximum s)%Q.
Proof.
  apply summarize_nonneg. apply Forall_forall. intros d Hd.
  apply list_elem_of_In, in_concat in Hd as (ds & Hds & Hd).
  apply list_elem_of_In in Hds. apply list_elem_of_In in Hd.
  apply list_elem_of_fmap in Hds as ([a ds'] & -> & Hentry).
  apply elem_of_map_to_list in Hentry. simpl in Hd.
  assert (Hall : durations_nonneg
                   (foldl block_step {| bans := ∅; durations := ∅ |}
                      (sorted_by_timestamp actions))).
  { apply block_loop_nonneg.
    - apply sorted_by_timestamp_sorted.
    - intros a' t e Ht _. unfold pending_of in Ht. simpl in Ht.
      rewrite lookup_empty in Ht. by apply elem_of_nil in Ht.
    - intros a'. unfold recorded. simpl. rewrite lookup_empty. constructor. }
  specialize (Hall a). unfold recorded in Hall.
  unfold compute_block_durations in Hentry. rewrite Hentry in Hall. simpl in Hall.
  rewrite Forall_forall in Hall. by apply Hall.
Qed.

End MetricsFigures.
